(** * Media library core of the Enjoy app: models, transcription, downloads

    A shallow embedding of the Sequelize models under
    [enjoy/src/main/db/models] (Audio, Video, Recording, Transcription) and of
    the [Downloader] class, with the properties the design document states
    about them.

    Conventions of the embedding.
    - A [Date] is its millisecond timestamp, a nullable column is an [option].
    - A model instance is a record; [this.update({...})] assigns the fields on
      the instance, stamps [updatedAt] (the tables have [timestamps: true]) and
      is recorded in an effect log.  The store is assumed to accept the write:
      instance and row are not distinguished.
    - An external collaborator (whisper, ffmpeg, the blob storage, uuid, the
      hash of a file, Electron's download items) is a field of an environment
      record or an event of a trace; the theorems quantify over all of them.
    - A rejected promise or a thrown exception is the right summand of a sum. *)

From stdpp Require Import base option list strings gmap.
From Stdlib Require Import ZArith Lia Ascii.

Set Default Proof Using "Type".

(** ** JavaScript values *)

Inductive exn : Type :=
| Error (message : string)
| TypeError (message : string)
| UniqueConstraintError (column : string)
| Rejection (reason : string).

Global Instance exn_eq_dec : EqDecision exn.
Proof. solve_decision. Defined.

#[warnings="-register-all"] Inductive json : Type :=
| JNull
| JStr (s : string)
| JNum (z : Z)
| JArr (items : list json)
| JObj (fields : list (string * json)).

(** [Boolean(x)] for a string: only the empty string is falsy. *)
Definition truthy (s : string) : bool := if decide (s = "") then false else true.

(** [a || b] on strings. *)
Definition or_else (a b : string) : string := if truthy a then a else b.

(** ** Paths (POSIX flavour of node's [path], without [..] normalisation) *)

Module path.

Fixpoint split_on (sep : Ascii.ascii) (s : string) : list string :=
  match s with
  | EmptyString => [EmptyString]
  | String c rest =>
      if decide (c = sep) then EmptyString :: split_on sep rest
      else match split_on sep rest with
           | [] => [String c EmptyString]
           | seg :: segs => String c seg :: segs
           end
  end.

(** [xs.pop()] of a non-empty array. *)
Definition pop (xs : list string) : string := List.last xs "".

Definition basename_of (p : string) : string := pop (split_on "/"%char p).

(** [path.extname]: from the last dot of the base name, empty when there is
    no dot or when the only dot leads the name. *)
Definition extname (p : string) : string :=
  let segs := split_on "."%char (basename_of p) in
  match segs with
  | [] | [_] => ""
  | first :: _ =>
      if decide (basename_of p = "..") then ""
      else if decide (first = "" ∧ length segs = 2%nat) then ""
      else "." +:+ pop segs
  end.

(** [path.join]: empty segments are skipped. *)
Definition join (segs : list string) : string :=
  String.concat "/" (filter (λ s, s ≠ "") segs).

End path.

(** [extname.split(".").pop()] *)
Definition format_of (extname : string) : string :=
  path.pop (path.split_on "."%char extname).

(** ** Settings *)

Record Settings := {
  userDataPath : string;   (* settings.userDataPath() *)
  userId : string;         (* `${settings.getSync("user.id")}` *)
}.

(** ** An error monad over a mutable instance and an effect log *)

Section Monad.
Context {S : Type}.

Definition M (A : Type) : Type := S → S * (A + exn).

Definition ret {A} (a : A) : M A := λ s, (s, inl a).
Definition throw {A} (e : exn) : M A := λ s, (s, inr e).
Definition bind {A B} (m : M A) (k : A → M B) : M B :=
  λ s, match m s with
       | (s', inl a) => k a s'
       | (s', inr e) => (s', inr e)
       end.
Definition try_catch {A} (body : M A) (handler : exn → M A) : M A :=
  λ s, match body s with
       | (s', inl a) => (s', inl a)
       | (s', inr e) => handler e s'
       end.
Definition get : M S := λ s, (s, inl s).
Definition modify (f : S → S) : M unit := λ s, (f s, inl tt).
(** Awaiting a collaborator that already settled. *)
Definition await {A} (r : A + exn) : M A := λ s, (s, r).
End Monad.

Arguments M : clear implicits.

Global Instance M_ret {S} : MRet (M S) := λ A, ret.
Global Instance M_bind {S} : MBind (M S) := λ A B k m, bind m k.

(** ** Model instances

    Every table is declared with [timestamps: true]: a save stamps
    [updatedAt].  [Model] is that part of Sequelize's [Model] the code below
    relies on. *)

Class Model (T : Type) := {
  getUpdatedAt : T → Z;
  setUpdatedAt : Z → T → T;
}.

(** What one call works on: the instance, the effects so far, and the number
    of times the wall clock was read. *)
Record Run (T E : Type) := {
  this : T;
  effects : list E;
  ticks : nat;
}.
Arguments this {T E} _.
Arguments effects {T E} _.
Arguments ticks {T E} _.

Definition start {T E} (x : T) : Run T E :=
  {| this := x; effects := []; ticks := 0 |}.

Section Instance.
Context {T E : Type} `{Model T}.
Variable clock : nat → Z.

(** [new Date()] *)
Definition now : M (Run T E) Z :=
  λ r, ({| this := this r; effects := effects r; ticks := Datatypes.S (ticks r) |},
        inl (clock (ticks r))).

Definition emit (e : E) : M (Run T E) unit :=
  modify (λ r, {| this := this r; effects := effects r ++ [e]; ticks := ticks r |}).

(** [this.update(values)]: assign the values, stamp [updatedAt], save; the
    [AfterUpdate] hook sees the change. *)
Definition update (hook : T → T → E) (assign : T → T) : M (Run T E) unit :=
  λ r,
    let before := this r in
    let after := setUpdatedAt (clock (ticks r)) (assign before) in
    ({| this := after;
        effects := effects r ++ [hook before after];
        ticks := Datatypes.S (ticks r) |}, inl tt).
End Instance.

(** The blob storage: [put] resolves to [result.data] or rejects. *)
Record PutData := { success : bool; data : string }.
Record Storage := { put : string → string → PutData + exn }.

(** ffmpeg's probe and the [uuid] package. *)
Record Ffmpeg := { generateMetadata : string → gmap string string + exn }.
Record Uuid := { v5 : string → string → string; URL : string }.

(** ** Audio and Video *)

Module Audio.

Record t := mk {
  id : string;
  source : string;
  md5 : string;
  name : string;
  description : string;
  metadata : gmap string string;
  coverUrl : string;
  recordingsCount : Z;
  recordingsDuration : Z;
  syncedAt : option Z;
  uploadedAt : option Z;
  updatedAt : Z;
}.

Global Instance model : Model t := {|
  getUpdatedAt := updatedAt;
  setUpdatedAt d x :=
    mk (id x) (source x) (md5 x) (name x) (description x) (metadata x)
       (coverUrl x) (recordingsCount x) (recordingsDuration x)
       (syncedAt x) (uploadedAt x) d;
|}.

Definition set_uploadedAt (d : Z) (x : t) : t :=
  mk (id x) (source x) (md5 x) (name x) (description x) (metadata x)
     (coverUrl x) (recordingsCount x) (recordingsDuration x)
     (syncedAt x) (Some d) (updatedAt x).

Definition set_metadata (m : gmap string string) (x : t) : t :=
  mk (id x) (source x) (md5 x) (name x) (description x) m
     (coverUrl x) (recordingsCount x) (recordingsDuration x)
     (syncedAt x) (uploadedAt x) (updatedAt x).

Definition set_id (i : string) (x : t) : t :=
  mk i (source x) (md5 x) (name x) (description x) (metadata x)
     (coverUrl x) (recordingsCount x) (recordingsDuration x)
     (syncedAt x) (uploadedAt x) (updatedAt x).

(** [audio.increment(...)]: one atomic statement on the row, which also
    stamps [updatedAt]. *)
Definition add_recordings (dc dd at_ : Z) (x : t) : t :=
  mk (id x) (source x) (md5 x) (name x) (description x) (metadata x)
     (coverUrl x) (recordingsCount x + dc) (recordingsDuration x + dd)
     (syncedAt x) (uploadedAt x) at_.

Definition isSynced (this : t) : bool :=
  match syncedAt this with
  | Some s => bool_decide (updatedAt this ≤ s)%Z
  | None => false
  end.

Definition isUploaded (this : t) : bool :=
  match uploadedAt this with Some _ => true | None => false end.

Definition extname (this : t) : string :=
  or_else (default "" (metadata this !! "extname"))
          (or_else (path.extname (source this)) "").

Definition filePath (cfg : Settings) (this : t) : string :=
  path.join [userDataPath cfg; "audios"; md5 this +:+ extname this].

Inductive Effect :=
| Update (before after : t)
| StoragePut (key file : string).

Section Methods.
Variable cfg : Settings.
Variable storage : Storage.
Variable clock : nat → Z.

Definition upload (force : bool) : M (Run t Effect) unit :=
  r ← get;
  if isUploaded (this r) && negb force then mret tt else
  try_catch
    (emit (StoragePut (md5 (this r)) (filePath cfg (this r)));;
     result ← await (put storage (md5 (this r)) (filePath cfg (this r)));
     if success result then
       d ← now clock;
       update clock Update (set_uploadedAt d)
     else throw (Error (data result)))
    (λ err, throw err).
End Methods.

(** [@BeforeCreate]: a failing probe is logged and ignored. *)
Definition setupDefaultAttributes (cfg : Settings) (ffmpeg : Ffmpeg) (uuid : Uuid)
    (audio : t) : t :=
  let audio' :=
    match generateMetadata ffmpeg (filePath cfg audio) with
    | inl fileMetadata => set_metadata (fileMetadata ∪ metadata audio) audio
    | inr _ => audio
    end in
  set_id (v5 uuid (userId cfg +:+ "/" +:+ md5 audio') (URL uuid)) audio'.

End Audio.

Module Video.

Record t := mk {
  id : string;
  source : string;
  md5 : string;
  name : string;
  description : string;
  metadata : gmap string string;
  coverUrl : string;
  recordingsCount : Z;
  recordingsDuration : Z;
  syncedAt : option Z;
  uploadedAt : option Z;
  updatedAt : Z;
}.

Global Instance model : Model t := {|
  getUpdatedAt := updatedAt;
  setUpdatedAt d x :=
    mk (id x) (source x) (md5 x) (name x) (description x) (metadata x)
       (coverUrl x) (recordingsCount x) (recordingsDuration x)
       (syncedAt x) (uploadedAt x) d;
|}.

Definition set_uploadedAt (d : Z) (x : t) : t :=
  mk (id x) (source x) (md5 x) (name x) (description x) (metadata x)
     (coverUrl x) (recordingsCount x) (recordingsDuration x)
     (syncedAt x) (Some d) (updatedAt x).

Definition set_metadata (m : gmap string string) (x : t) : t :=
  mk (id x) (source x) (md5 x) (name x) (description x) m
     (coverUrl x) (recordingsCount x) (recordingsDuration x)
     (syncedAt x) (uploadedAt x) (updatedAt x).

Definition set_id (i : string) (x : t) : t :=
  mk i (source x) (md5 x) (name x) (description x) (metadata x)
     (coverUrl x) (recordingsCount x) (recordingsDuration x)
     (syncedAt x) (uploadedAt x) (updatedAt x).

Definition isSynced (this : t) : bool :=
  match syncedAt this with
  | Some s => bool_decide (updatedAt this ≤ s)%Z
  | None => false
  end.

Definition isUploaded (this : t) : bool :=
  match uploadedAt this with Some _ => true | None => false end.

Definition extname (this : t) : string :=
  or_else (default "" (metadata this !! "extname"))
          (or_else (path.extname (source this)) "").

Definition filePath (cfg : Settings) (this : t) : string :=
  path.join [userDataPath cfg; "videos"; md5 this +:+ extname this].

Inductive Effect :=
| Update (before after : t)
| StoragePut (key file : string).

Section Methods.
Variable cfg : Settings.
Variable storage : Storage.
Variable clock : nat → Z.

Definition upload (force : bool) : M (Run t Effect) unit :=
  r ← get;
  if isUploaded (this r) && negb force then mret tt else
  try_catch
    (emit (StoragePut (md5 (this r)) (filePath cfg (this r)));;
     result ← await (put storage (md5 (this r)) (filePath cfg (this r)));
     if success result then
       d ← now clock;
       update clock Update (set_uploadedAt d)
     else throw (Error (data result)))
    (λ err, throw err).
End Methods.

Definition setupDefaultAttributes (cfg : Settings) (ffmpeg : Ffmpeg) (uuid : Uuid)
    (video : t) : t :=
  let video' :=
    match generateMetadata ffmpeg (filePath cfg video) with
    | inl fileMetadata => set_metadata (fileMetadata ∪ metadata video) video
    | inr _ => video
    end in
  set_id (v5 uuid (userId cfg +:+ "/" +:+ md5 video') (URL uuid)) video'.

End Video.

(** ** Transcription *)

Module Transcription.

Inductive State := pending | processing | finished.

Global Instance State_eq_dec : EqDecision State.
Proof. solve_decision. Defined.

Record t := mk {
  id : string;
  targetId : string;
  targetType : string;
  targetMd5 : string;
  state : State;
  engine : option string;
  model : option string;
  result : option json;
  syncedAt : option Z;
  updatedAt : Z;
}.

Global Instance sequelize : Model t := {|
  getUpdatedAt := updatedAt;
  setUpdatedAt d x :=
    mk (id x) (targetId x) (targetType x) (targetMd5 x) (state x)
       (engine x) (model x) (result x) (syncedAt x) d;
|}.

Definition isSynced (this : t) : bool :=
  match syncedAt this with
  | Some s => bool_decide (updatedAt this ≤ s)%Z
  | None => false
  end.

(** The whisper module: [transcribe] resolves to the model type (the
    [model?.type] of its answer) and the raw transcription, or rejects;
    [groupTranscription] may throw. *)
Record Whisper := {
  transcribe : string → bool → list string → (option string * json) + exn;
  groupTranscription : json → json + exn;
}.

Inductive Effect :=
| Update (before after : t)
| WhisperTranscribe (filePath : string) (force : bool) (extra : list string)
| SyncScheduled.

Definition set_state (s : State) (x : t) : t :=
  mk (id x) (targetId x) (targetType x) (targetMd5 x) s
     (engine x) (model x) (result x) (syncedAt x) (updatedAt x).

Definition set_finished (m : option string) (res : json) (x : t) : t :=
  mk (id x) (targetId x) (targetType x) (targetMd5 x) finished
     (Some "whisper") m (Some res) (syncedAt x) (updatedAt x).

(** The decoding options of line 103-107 (the prompt's double quotes are
    written as single quotes here). *)
Definition extra_args : list string :=
  ["--split-on-word"; "--max-len 1";
   "--prompt 'Hello! Welcome to listen to this audio.'"].

Section Process.
Variable cfg : Settings.
Variable whisper : Whisper.
Variable clock : nat → Z.
Variable audios : gmap string Audio.t.
Variable videos : gmap string Video.t.

(** Lines 85-90: the file of the target; [""] for an unknown tag, a
    [TypeError] when [findByPk] resolves to [null]. *)
Definition resolveFilePath (x : t) : string + exn :=
  if decide (targetType x = "Audio") then
    match audios !! targetId x with
    | Some a => inl (Audio.filePath cfg a)
    | None => inr (TypeError "Cannot read properties of null (reading 'filePath')")
    end
  else if decide (targetType x = "Video") then
    match videos !! targetId x with
    | Some v => inl (Video.filePath cfg v)
    | None => inr (TypeError "Cannot read properties of null (reading 'filePath')")
    end
  else inl "".

Definition process (force : bool) : M (Run t Effect) unit :=
  r ← get;
  if decide (state (this r) = processing) then mret tt else
  filePath ← await (resolveFilePath (this r));
  if negb (truthy filePath) then throw (Error "No file path.") else
  try_catch
    (update clock Update (set_state processing);;
     emit (WhisperTranscribe filePath force extra_args);;
     '(model, transcription) ← await (transcribe whisper filePath force extra_args);
     result ← await (groupTranscription whisper transcription);
     update clock Update (set_finished model result);;
     emit SyncScheduled)
    (λ err,
       update clock Update (set_state pending);;
       throw err).

End Process.


(** The moves of [state] that a call performed, in order. *)
Definition transitions (es : list Effect) : list (State * State) :=
  omap (λ e, match e with
             | Update before after => Some (state before, state after)
             | _ => None
             end) es.

Definition calls_whisper (es : list Effect) : list bool :=
  omap (λ e, match e with
             | WhisperTranscribe _ force _ => Some force
             | _ => None
             end) es.

(** *** sync *)

(** The remote API as [sync] uses it: the call resolves or rejects. *)
Record WebApi := { syncTranscription : t → unit + exn }.

Inductive SyncEffect :=
| Saved (before after : t)
| SyncTranscription (payload : t).

Definition set_syncedAt (d : Z) (x : t) : t :=
  mk (id x) (targetId x) (targetType x) (targetMd5 x) (state x)
     (engine x) (model x) (result x) (Some d) (updatedAt x).

Definition sync (webApi : WebApi) (clock : nat → Z) : M (Run t SyncEffect) unit :=
  r ← get;
  if decide (state (this r) ≠ finished) then mret tt else
  emit (SyncTranscription (this r));;
  _ ← await (syncTranscription webApi (this r));
  d ← now clock;
  update clock Saved (set_syncedAt d).

Definition calls_api (es : list SyncEffect) : list t :=
  omap (λ e, match e with SyncTranscription payload => Some payload | _ => None end) es.

End Transcription.

(** ** Recording *)

Module Recording.

Record t := mk {
  id : string;
  targetId : string;
  targetType : string;
  md5 : string;
  filename : string;
  referenceId : option Z;
  referenceText : string;
  duration : Z;
  syncedAt : option Z;
  uploadedAt : option Z;
  updatedAt : Z;
}.

Global Instance model : Model t := {|
  getUpdatedAt := updatedAt;
  setUpdatedAt d x :=
    mk (id x) (targetId x) (targetType x) (md5 x) (filename x) (referenceId x)
       (referenceText x) (duration x) (syncedAt x) (uploadedAt x) d;
|}.

Definition isSynced (this : t) : bool :=
  match syncedAt this with
  | Some s => bool_decide (updatedAt this ≤ s)%Z
  | None => false
  end.

Definition filePath (cfg : Settings) (this : t) : string :=
  path.join [userDataPath cfg; "recordings"; filename this].

(** [audio.increment(field, { by })] and [audio.decrement(field, { by })]:
    one atomic statement each, stamping [updatedAt] at [at_]. *)
Definition increment (field : string) (by_ at_ : Z) (audio : Audio.t) : Audio.t :=
  if decide (field = "recordingsCount") then Audio.add_recordings by_ 0 at_ audio
  else if decide (field = "recordingsDuration") then Audio.add_recordings 0 by_ at_ audio
  else audio.

Definition decrement (field : string) (by_ at_ : Z) (audio : Audio.t) : Audio.t :=
  increment field (- by_) at_ audio.

(** [@AfterCreate].  When [findByPk] resolves to [null] the callback throws
    inside the promise and no row changes. *)
Definition increaseResourceCache (at_ : Z) (recording : t)
    (audios : gmap string Audio.t) : gmap string Audio.t :=
  if decide (targetType recording ≠ "Audio") then audios else
  match audios !! targetId recording with
  | Some audio =>
      <[targetId recording :=
          increment "recordingsDuration" (duration recording) at_
            (increment "recordingsCount" 1 at_ audio)]> audios
  | None => audios
  end.

(** [@AfterDestroy] *)
Definition decreaseResourceCache (at_ : Z) (recording : t)
    (audios : gmap string Audio.t) : gmap string Audio.t :=
  if decide (targetType recording = "Audio") then
    match audios !! targetId recording with
    | Some audio =>
        <[targetId recording :=
            decrement "recordingsDuration" (duration recording) at_
              (decrement "recordingsCount" 1 at_ audio)]> audios
    | None => audios
    end
  else audios.

(** *** upload and sync *)

Record WebApi := { syncRecording : t → unit + exn }.

Inductive Effect :=
| Update (before after : t)
| StoragePut (key file : string)
| SyncRecording (payload : t).

Definition set_uploadedAt (d : Z) (x : t) : t :=
  mk (id x) (targetId x) (targetType x) (md5 x) (filename x) (referenceId x)
     (referenceText x) (duration x) (syncedAt x) (Some d) (updatedAt x).

Definition set_syncedAt (d : Z) (x : t) : t :=
  mk (id x) (targetId x) (targetType x) (md5 x) (filename x) (referenceId x)
     (referenceText x) (duration x) (Some d) (uploadedAt x) (updatedAt x).

Definition isUploaded (this : t) : bool :=
  match uploadedAt this with Some _ => true | None => false end.

Section Methods.
Variable cfg : Settings.
Variable storage : Storage.
Variable webApi : WebApi.
Variable clock : nat → Z.

Definition upload (force : bool) : M (Run t Effect) unit :=
  r ← get;
  if isUploaded (this r) && negb force then mret tt else
  try_catch
    (emit (StoragePut (md5 (this r)) (filePath cfg (this r)));;
     result ← await (put storage (md5 (this r)) (filePath cfg (this r)));
     if success result then
       d ← now clock;
       update clock Update (set_uploadedAt d)
     else throw (Error (data result)))
    (λ err, throw err).

(** [sync] awaits the upload it starts. *)
Definition sync : M (Run t Effect) unit :=
  r ← get;
  (if negb (isUploaded (this r)) then upload false else mret tt);;
  r' ← get;
  emit (SyncRecording (this r'));;
  _ ← await (syncRecording webApi (this r'));
  d ← now clock;
  update clock Update (set_syncedAt d).

End Methods.

Definition puts (es : list Effect) : list string :=
  omap (λ e, match e with StoragePut key _ => Some key | _ => None end) es.

Definition syncs (es : list Effect) : list t :=
  omap (λ e, match e with SyncRecording payload => Some payload | _ => None end) es.

End Recording.

(** ** Pronunciation assessment of a recording *)

Module Assessment.

(** What the speech SDK answers. *)
Record Content := {
  c_grammarScore : json;
  c_vocabularyScore : json;
  c_topicScore : json;
}.

Record SdkResult := {
  r_pronunciationScore : json;
  r_accuracyScore : json;
  r_completenessScore : json;
  r_fluencyScore : json;
  r_prosodyScore : json;
  r_contentAssessmentResult : option Content;
  r_detailResult : json;
}.

(** A row of the assessments table. *)
Record t := mk {
  id : string;
  targetId : string;
  targetType : string;
  pronunciationScore : json;
  accuracyScore : json;
  completenessScore : json;
  fluencyScore : json;
  prosodyScore : json;
  grammarScore : option json;
  vocabularyScore : option json;
  topicScore : option json;
  result : json;
}.

(** The token endpoint, the SDK and [camelcaseKeys]. *)
Record Remote := {
  generateSpeechToken : (string * string) + exn;
  pronunciationAssessment : string → string → string → string → SdkResult + exn;
  camelcaseKeys : json → json;
}.

Inductive Effect :=
| TokenRequested
| Assessed (token region filePath reference : string)
| Created (row : t).

Record Store := {
  table : list t;
  effects : list Effect;
}.

Definition emit (e : Effect) : M Store unit :=
  modify (λ st, {| table := table st; effects := effects st ++ [e] |}).

(** [PronunciationAssessment.create(values)] under the primary key [fresh]. *)
Definition create (row : t) : M Store t :=
  λ st,
    if decide (Exists (λ a, id a = id row) (table st)) then
      (st, inr (UniqueConstraintError "id"))
    else
      ({| table := table st ++ [row]; effects := effects st ++ [Created row] |}, inl row).

Definition findOne (targetId_ targetType_ : string) (st : Store) : option t :=
  List.find (λ a, bool_decide (targetId a = targetId_ ∧ targetType a = targetType_))
            (table st).

Definition assess (cfg : Settings) (remote : Remote) (fresh : string)
    (this : Recording.t) : M Store t :=
  st ← get;
  match findOne (Recording.id this) "Recording" st with
  | Some assessment => mret assessment
  | None =>
      emit TokenRequested;;
      '(token, region) ← await (generateSpeechToken remote);
      emit (Assessed token region (Recording.filePath cfg this)
              (Recording.referenceText this));;
      result ← await (pronunciationAssessment remote token region
                        (Recording.filePath cfg this) (Recording.referenceText this));
      create (mk fresh (Recording.id this) "Recording"
                (r_pronunciationScore result) (r_accuracyScore result)
                (r_completenessScore result) (r_fluencyScore result)
                (r_prosodyScore result)
                (c_grammarScore <$> r_contentAssessmentResult result)
                (c_vocabularyScore <$> r_contentAssessmentResult result)
                (c_topicScore <$> r_contentAssessmentResult result)
                (camelcaseKeys remote (r_detailResult result)))
  end.

End Assessment.

(** ** The library: tables and files *)

Module Library.

Inductive Task :=
| TranscribeAudio (id : string)
| SyncAudio (id : string)
| TranscribeVideo (id : string)
| SyncVideo (id : string)
| GenerateCover (id : string)
| SyncRecording (id : string)
| Notify (model id action : string).

Record World := {
  fs : gmap string string;                 (* readable files and their bytes *)
  audios : gmap string Audio.t;            (* rows by primary key *)
  videos : gmap string Video.t;
  recordings : gmap string Recording.t;
  transcriptions : list Transcription.t;
  scheduled : list Task;                   (* started by the After* hooks *)
  time : Z;                                (* the wall clock *)
}.

Definition with_fs (f : gmap string string) (w : World) : World :=
  {| fs := f; audios := audios w; videos := videos w; recordings := recordings w;
     transcriptions := transcriptions w; scheduled := scheduled w; time := time w |}.

Definition with_audios (a : gmap string Audio.t) (w : World) : World :=
  {| fs := fs w; audios := a; videos := videos w; recordings := recordings w;
     transcriptions := transcriptions w; scheduled := scheduled w; time := time w |}.

Definition with_videos (v : gmap string Video.t) (w : World) : World :=
  {| fs := fs w; audios := audios w; videos := v; recordings := recordings w;
     transcriptions := transcriptions w; scheduled := scheduled w; time := time w |}.

Definition with_recordings (r : gmap string Recording.t) (w : World) : World :=
  {| fs := fs w; audios := audios w; videos := videos w; recordings := r;
     transcriptions := transcriptions w; scheduled := scheduled w; time := time w |}.

Definition with_transcriptions (t : list Transcription.t) (w : World) : World :=
  {| fs := fs w; audios := audios w; videos := videos w; recordings := recordings w;
     transcriptions := t; scheduled := scheduled w; time := time w |}.

Definition schedule (ts : list Task) (w : World) : World :=
  {| fs := fs w; audios := audios w; videos := videos w; recordings := recordings w;
     transcriptions := transcriptions w; scheduled := scheduled w ++ ts; time := time w |}.

Record Params := {
  p_name : option string;
  p_description : option string;
  p_source : option string;
  p_coverUrl : option string;
}.

Inductive Asset := AudioRow (a : Audio.t) | VideoRow (v : Video.t).

(** What the models import and this repository does not define: the format
    tables of [@/constants], [hashFile] of [@/utils] (as a function of the
    bytes), ffmpeg, uuid, lodash's [startCase]. *)
Record Env := {
  cfg : Settings;
  AudioFormats : list string;
  VideoFormats : list string;
  hashFile : string → string;
  ffmpeg : Ffmpeg;
  uuid : Uuid;
  startCase : string → string;
}.

(** [t(key, { file })] of i18next, left untranslated. *)
Definition i18n (key file : string) : string := key +:+ " " +:+ file.

(** [path.basename(p, ext)] *)
Definition basename (p ext : string) : string :=
  let b := path.basename_of p in
  let n := (String.length b - String.length ext)%nat in
  if decide (ext ≠ "" ∧ b ≠ ext ∧ String.substring n (String.length ext) b = ext)
  then String.substring 0 n b else b.

Section Ingest.
Variable env : Env.

(** [record.save()] of a new Audio: the [@BeforeCreate] hook, the INSERT
    under the primary key and the [@Unique] column [md5], then the
    [@AfterCreate] hooks. *)
Definition Audio_save (record : Audio.t) (w : World) : World * (Audio.t + exn) :=
  let audio := Audio.setupDefaultAttributes (cfg env) (ffmpeg env) (uuid env) record in
  if decide (is_Some (audios w !! Audio.id audio)) then
    (w, inr (UniqueConstraintError "id"))
  else if decide (map_Exists (λ _ row, Audio.md5 row = Audio.md5 audio) (audios w)) then
    (w, inr (UniqueConstraintError "md5"))
  else
    let row := setUpdatedAt (time w) audio in
    (schedule [TranscribeAudio (Audio.id row); SyncAudio (Audio.id row);
               Notify "Audio" (Audio.id row) "create"]
       (with_audios (<[Audio.id row := row]> (audios w)) w),
     inl row).

Definition Video_save (record : Video.t) (w : World) : World * (Video.t + exn) :=
  let video := Video.setupDefaultAttributes (cfg env) (ffmpeg env) (uuid env) record in
  if decide (is_Some (videos w !! Video.id video)) then
    (w, inr (UniqueConstraintError "id"))
  else if decide (map_Exists (λ _ row, Video.md5 row = Video.md5 video) (videos w)) then
    (w, inr (UniqueConstraintError "md5"))
  else
    let row := setUpdatedAt (time w) video in
    (schedule [TranscribeVideo (Video.id row); SyncVideo (Video.id row);
               GenerateCover (Video.id row); Notify "Video" (Video.id row) "create"]
       (with_videos (<[Video.id row := row]> (videos w)) w),
     inl row).

(** The two [buildFromLocalFile] hand a file of the other kind over to
    each other; [fuel] bounds that exchange.  [fs.copySync] refuses to
    copy a file onto itself and otherwise overwrites the destination. *)
Fixpoint Audio_buildFromLocalFile (fuel : nat) (filePath : string) (params : Params)
    (w : World) : option (World * (Asset + exn)) :=
  match fuel with
  | O => None
  | Datatypes.S fuel' =>
      match fs w !! filePath with
      | None => Some (w, inr (Error (i18n "models.audio.fileNotFound" filePath)))
      | Some bytes =>
          let extname := path.extname filePath in
          if decide (format_of extname ∈ VideoFormats env) then
            Video_buildFromLocalFile fuel' filePath params w
          else if decide (format_of extname ∉ AudioFormats env) then
            Some (w, inr (Error (i18n "models.audio.fileNotSupported" filePath)))
          else
            let md5 := hashFile env bytes in
            let destDir := path.join [userDataPath (cfg env); "audios"] in
            let destFile := path.join [destDir; md5 +:+ extname] in
            if decide (filePath = destFile) then
              Some (w, inr (Error (i18n "models.audio.failedToCopyFile" filePath)))
            else
              let w1 := with_fs (<[destFile := bytes]> (fs w)) w in
              let record :=
                Audio.mk "" (default "" (p_source params)) md5
                  (default (startCase env (basename filePath extname)) (p_name params))
                  (default "" (p_description params))
                  {[ "extname" := extname ]}
                  (default "" (p_coverUrl params)) 0 0 None None 0 in
              match Audio_save record w1 with
              | (w2, inl row) => Some (w2, inl (AudioRow row))
              | (w2, inr err) =>
                  (* Remove copied file *)
                  Some (with_fs (delete destFile (fs w2)) w2, inr err)
              end
      end
  end
with Video_buildFromLocalFile (fuel : nat) (filePath : string) (params : Params)
    (w : World) : option (World * (Asset + exn)) :=
  match fuel with
  | O => None
  | Datatypes.S fuel' =>
      match fs w !! filePath with
      | None => Some (w, inr (Error (i18n "models.video.fileNotFound" filePath)))
      | Some bytes =>
          let extname := path.extname filePath in
          if decide (format_of extname ∈ AudioFormats env) then
            Audio_buildFromLocalFile fuel' filePath params w
          else if decide (format_of extname ∉ VideoFormats env) then
            Some (w, inr (Error (i18n "models.video.fileNotSupported" filePath)))
          else
            let md5 := hashFile env bytes in
            let destDir := path.join [userDataPath (cfg env); "videos"] in
            let destFile := path.join [destDir; md5 +:+ extname] in
            if decide (filePath = destFile) then
              Some (w, inr (Error (i18n "models.video.failedToCopyFile" filePath)))
            else
              let w1 := with_fs (<[destFile := bytes]> (fs w)) w in
              let record :=
                Video.mk "" (default "" (p_source params)) md5
                  (default (startCase env (basename filePath extname)) (p_name params))
                  (default "" (p_description params))
                  {[ "extname" := extname ]}
                  (default "" (p_coverUrl params)) 0 0 None None 0 in
              match Video_save record w1 with
              | (w2, inl row) => Some (w2, inl (VideoRow row))
              | (w2, inr err) =>
                  (* Remove copied file *)
                  Some (with_fs (delete destFile (fs w2)) w2, inr err)
              end
      end
  end.

End Ingest.



(** *** Recordings and the counters of their target *)

(** [Recording.create(...)] with its [@AfterCreate] hooks. *)
Definition Recording_create (recording : Recording.t) (w : World) : World * (Recording.t + exn) :=
  if decide (is_Some (recordings w !! Recording.id recording)) then
    (w, inr (UniqueConstraintError "id"))
  else if decide (map_Exists (λ _ row, Recording.md5 row = Recording.md5 recording)
                    (recordings w)) then
    (w, inr (UniqueConstraintError "md5"))
  else
    let row := setUpdatedAt (time w) recording in
    let w1 := with_recordings (<[Recording.id row := row]> (recordings w)) w in
    let w2 := with_audios (Recording.increaseResourceCache (time w) row (audios w1)) w1 in
    (schedule [SyncRecording (Recording.id row);
               Notify "Recording" (Recording.id row) "create"] w2,
     inl row).

(** [recording.destroy()] with its [@AfterDestroy] hooks. *)
Definition Recording_destroy (cfg : Settings) (recording : Recording.t) (w : World) : World :=
  let w1 := with_recordings (delete (Recording.id recording) (recordings w)) w in
  let w2 := with_audios (Recording.decreaseResourceCache (time w) recording (audios w1)) w1 in
  let w3 := with_fs (delete (Recording.filePath cfg recording) (fs w2)) w2 in
  schedule [Notify "Recording" (Recording.id recording) "destroy"] w3.

(** The live recordings of a target. *)
Definition live (targetType targetId : string) (w : World) : list Recording.t :=
  filter (λ r, Recording.targetType r = targetType ∧ Recording.targetId r = targetId)
         (map_to_list (recordings w)).*2.

Definition live_count (targetType targetId : string) (w : World) : Z :=
  Z.of_nat (length (live targetType targetId w)).

Definition live_duration (targetType targetId : string) (w : World) : Z :=
  foldr (λ r acc, Recording.duration r + acc)%Z 0%Z (live targetType targetId w).

(** *** Starting a transcription from an asset *)

Record ProcessCall := { callee : Transcription.t; force : bool }.

(** [Transcription.findOrCreate({ where, defaults })]: the first row for the
    target, or a new [pending] row under a fresh primary key; [targetMd5]
    is [@Unique]. *)
Definition findOrCreate (fresh targetId targetType targetMd5 : string) (w : World)
    : World * ((Transcription.t * bool) + exn) :=
  match List.find (λ row, bool_decide (Transcription.targetId row = targetId
                                       ∧ Transcription.targetType row = targetType))
                  (transcriptions w) with
  | Some row => (w, inl (row, false))
  | None =>
      if decide (Exists (λ row, Transcription.id row = fresh
                                ∨ Transcription.targetMd5 row = targetMd5)
                   (transcriptions w)) then
        (w, inr (UniqueConstraintError "targetMd5"))
      else
        let row := Transcription.mk fresh targetId targetType targetMd5
                     Transcription.pending None None None None (time w) in
        (with_transcriptions (transcriptions w ++ [row]) w, inl (row, true))
  end.

(** The body of [transcribe]'s [.then]: which [process] call it makes. *)
Definition transcribe_then (transcription : Transcription.t) : list ProcessCall :=
  match Transcription.state transcription with
  | Transcription.pending => [{| callee := transcription; force := false |}]
  | Transcription.finished => [{| callee := transcription; force := true |}]
  | Transcription.processing => []
  end.

(** [@AfterCreate] of Transcription: [process()] from a timer. *)
Definition startTranscribeAsync (transcription : Transcription.t) : list ProcessCall :=
  [{| callee := transcription; force := false |}].

Definition Audio_transcribe (fresh : string) (audio : Audio.t) (w : World)
    : World * (list ProcessCall + exn) :=
  match findOrCreate fresh (Audio.id audio) "Audio" (Audio.md5 audio) w with
  | (w', inl (transcription, created)) =>
      (w', inl (transcribe_then transcription
                ++ (if created then startTranscribeAsync transcription else [])))
  | (w', inr err) => (w', inr err)
  end.


(** *** Shape of the tables *)

(** Rows sit under their primary key. *)
Definition well_keyed (w : World) : Prop :=
  (∀ k a, audios w !! k = Some a → Audio.id a = k)
  ∧ (∀ k v, videos w !! k = Some v → Video.id v = k).

(** The [@Unique] column [md5] of both tables. *)
Definition md5_unique (w : World) : Prop :=
  (∀ k1 k2 a1 a2, audios w !! k1 = Some a1 → audios w !! k2 = Some a2 →
                  Audio.md5 a1 = Audio.md5 a2 → k1 = k2)
  ∧ (∀ k1 k2 v1 v2, videos w !! k1 = Some v1 → videos w !! k2 = Some v2 →
                    Video.md5 v1 = Video.md5 v2 → k1 = k2).

(** The file an ingestion of [filePath] as [kind] writes in the library. *)
Definition destFile (env : Env) (kind filePath bytes : string) : string :=
  path.join [path.join [userDataPath (cfg env); kind];
             hashFile env bytes +:+ path.extname filePath].

(** The instances [this.build({...})] makes in the two [buildFromLocalFile]. *)
Definition new_audio (env : Env) (filePath : string) (params : Params) (bytes : string)
    : Audio.t :=
  Audio.mk "" (default "" (p_source params)) (hashFile env bytes)
    (default (startCase env (basename filePath (path.extname filePath))) (p_name params))
    (default "" (p_description params))
    {[ "extname" := path.extname filePath ]}
    (default "" (p_coverUrl params)) 0 0 None None 0.

Definition new_video (env : Env) (filePath : string) (params : Params) (bytes : string)
    : Video.t :=
  Video.mk "" (default "" (p_source params)) (hashFile env bytes)
    (default (startCase env (basename filePath (path.extname filePath))) (p_name params))
    (default "" (p_description params))
    {[ "extname" := path.extname filePath ]}
    (default "" (p_coverUrl params)) 0 0 None None 0.

(** The ways an ingestion ends, whichever of the two functions was called:
    refused before anything was written, or copied and saved as an Audio, or
    as a Video, the copy being removed again when the save is refused. *)
Definition refused (w w' : World) (out : Asset + exn) : Prop :=
  w' = w ∧ ∃ message, out = inr (Error message).

Definition saved_as_audio (env : Env) (filePath : string) (params : Params)
    (bytes : string) (w w' : World) (out : Asset + exn) : Prop :=
  format_of (path.extname filePath) ∈ AudioFormats env
  ∧ (format_of (path.extname filePath) ∉ VideoFormats env)
  ∧ filePath ≠ destFile env "audios" filePath bytes
  ∧ match Audio_save env (new_audio env filePath params bytes)
            (with_fs (<[destFile env "audios" filePath bytes := bytes]> (fs w)) w) with
    | (w2, inl row) => w' = w2 ∧ out = inl (AudioRow row)
    | (w2, inr err) =>
        w' = with_fs (delete (destFile env "audios" filePath bytes) (fs w2)) w2
        ∧ out = inr err
    end.

Definition saved_as_video (env : Env) (filePath : string) (params : Params)
    (bytes : string) (w w' : World) (out : Asset + exn) : Prop :=
  format_of (path.extname filePath) ∈ VideoFormats env
  ∧ (format_of (path.extname filePath) ∉ AudioFormats env)
  ∧ filePath ≠ destFile env "videos" filePath bytes
  ∧ match Video_save env (new_video env filePath params bytes)
            (with_fs (<[destFile env "videos" filePath bytes := bytes]> (fs w)) w) with
    | (w2, inl row) => w' = w2 ∧ out = inl (VideoRow row)
    | (w2, inr err) =>
        w' = with_fs (delete (destFile env "videos" filePath bytes) (fs w2)) w2
        ∧ out = inr err
    end.

End Library.

(** ** Downloader

    [download] registers a listener for the session's [will-download] event
    and returns a promise; Electron then announces the item and reports on it
    through the item's [updated] and [done] events.  The state below holds
    what the closures of the source share: the promises, the session's
    listeners (never removed by the source), the [tasks] array, and for each
    Electron item the promises whose [resolve] its handlers close over. *)

Module Downloader.

Inductive DState := progressing | completed | cancelled | interrupted.

Global Instance DState_eq_dec : EqDecision DState.
Proof. solve_decision. Defined.

Inductive Promise :=
| Pending
| Resolved (value : option string)   (* [None] is [undefined] *)
| Rejected (reason : exn).

Record DownloadItem := {
  filename : string;          (* item.getFilename() *)
  savePath : string;          (* item.getSavePath() *)
  state : DState;             (* item.getState() *)
  isDone : bool;              (* the [done] event was emitted *)
  receivedBytes : Z;
  totalBytes : Z;
  observers : list nat;       (* one entry per pair of [updated]/[done] handlers *)
}.

Record Message := {
  m_name : string;
  m_state : DState;
  m_received : Z;
  m_total : Z;
}.

Record Listener := {
  l_savePath : option string;   (* the [savePath] option of the call *)
  l_promise : nat;              (* the promise the call returned *)
}.

Record State := {
  tasks : list nat;             (* this.tasks, as handles of Electron items *)
  items : list DownloadItem;    (* Electron's items; a handle is an index *)
  session : list Listener;      (* listeners of [will-download] *)
  promises : list Promise;
  requested : list string;      (* webContents.downloadURL(url) *)
  sent : list Message;          (* webContents.send("download-on-state", _) *)
  fs : gmap string string;
}.

Definition init (files : gmap string string) : State :=
  {| tasks := []; items := []; session := []; promises := []; requested := [];
     sent := []; fs := files |}.

Definition with_promises (ps : list Promise) (st : State) : State :=
  {| tasks := tasks st; items := items st; session := session st; promises := ps;
     requested := requested st; sent := sent st; fs := fs st |}.

Definition with_items (its : list DownloadItem) (st : State) : State :=
  {| tasks := tasks st; items := its; session := session st; promises := promises st;
     requested := requested st; sent := sent st; fs := fs st |}.

Definition with_tasks (ts : list nat) (st : State) : State :=
  {| tasks := ts; items := items st; session := session st; promises := promises st;
     requested := requested st; sent := sent st; fs := fs st |}.

Definition with_fs (f : gmap string string) (st : State) : State :=
  {| tasks := tasks st; items := items st; session := session st; promises := promises st;
     requested := requested st; sent := sent st; fs := f |}.

Definition send (m : Message) (st : State) : State :=
  {| tasks := tasks st; items := items st; session := session st; promises := promises st;
     requested := requested st; sent := sent st ++ [m]; fs := fs st |}.

(** [resolve(v)]: settles a pending promise, does nothing otherwise. *)
Definition settle (v : option string) (p : Promise) : Promise :=
  match p with Pending => Resolved v | _ => p end.

Definition resolve (k : nat) (v : option string) (st : State) : State :=
  with_promises (alter (settle v) k (promises st)) st.

Definition set_savePath (p : string) (it : DownloadItem) : DownloadItem :=
  {| filename := filename it; savePath := p; state := state it; isDone := isDone it;
     receivedBytes := receivedBytes it; totalBytes := totalBytes it;
     observers := observers it |}.

Definition observe (k : nat) (it : DownloadItem) : DownloadItem :=
  {| filename := filename it; savePath := savePath it; state := state it;
     isDone := isDone it; receivedBytes := receivedBytes it;
     totalBytes := totalBytes it; observers := observers it ++ [k] |}.

Definition report (s : DState) (done : bool) (received : Z) (it : DownloadItem)
    : DownloadItem :=
  {| filename := filename it; savePath := savePath it; state := s; isDone := done;
     receivedBytes := received; totalBytes := totalBytes it;
     observers := observers it |}.

Definition message_of (it : DownloadItem) (s : DState) : Message :=
  {| m_name := filename it; m_state := s; m_received := receivedBytes it;
     m_total := totalBytes it |}.

Section Methods.
Variable downloads : string.   (* app.getPath("downloads") *)

(** [download(url, options)]: the new promise is the result. *)
Definition download (url : string) (savePath : option string) (st : State)
    : State * nat :=
  let k := length (promises st) in
  ({| tasks := tasks st; items := items st;
      session := session st ++ [{| l_savePath := savePath; l_promise := k |}];
      promises := promises st ++ [Pending];
      requested := requested st ++ [url];
      sent := sent st; fs := fs st |}, k).

(** One listener of [will-download] receiving item [h]. *)
Definition on_will_download (h : nat) (l : Listener) (st : State) : State :=
  let place it :=
    match l_savePath l with
    | Some p => if truthy p then set_savePath p it
                else set_savePath (path.join [downloads; filename it]) it
    | None => set_savePath (path.join [downloads; filename it]) it
    end in
  with_tasks (tasks st ++ [h])
    (with_items (alter (λ it, observe (l_promise l) (place it)) h (items st)) st).

(** The [updated] handler attached for promise [k]. *)
Definition on_updated (h : nat) (s : DState) (k : nat) (st : State) : State :=
  match items st !! h with
  | None => st
  | Some it =>
      let st1 := send (message_of it s) st in
      if decide (s = interrupted) then resolve k None st1 else st1
  end.

(** The [done] handler attached for promise [k]. *)
Definition on_done (h : nat) (s : DState) (k : nat) (st : State) : State :=
  match items st !! h with
  | None => st
  | Some it =>
      let st1 := send (message_of it s) st in
      if decide (s = completed) then resolve k (Some (savePath it)) st1
      else resolve k None (with_fs (delete (savePath it) (fs st1)) st1)
  end.

(** *** What Electron does *)

(** A download starts: the session emits [will-download] with a new item
    to every listener, in the order of registration. *)
Definition emit_will_download (name : string) (total : Z) (st : State) : State :=
  let h := length (items st) in
  let it := {| filename := name; savePath := ""; state := progressing;
               isDone := false; receivedBytes := 0; totalBytes := total;
               observers := [] |} in
  foldl (λ acc l, on_will_download h l acc) (with_items (items st ++ [it]) st)
        (session st).

(** Progress or a resumable interruption of item [h]: the bytes received
    so far are at the save path; [updated] is emitted. *)
Definition emit_updated (h : nat) (s : DState) (received : Z) (bytes : string)
    (st : State) : State :=
  match items st !! h with
  | Some it =>
      if isDone it then st
      else if decide (s = progressing ∨ s = interrupted) then
        let st1 := with_items (<[h := report s false received it]> (items st)) st in
        let st2 := with_fs (<[savePath it := bytes]> (fs st1)) st1 in
        foldl (λ acc k, on_updated h s k acc) st2 (observers it)
      else st
  | None => st
  end.

(** Item [h] reaches a terminal state; [done] is emitted once. *)
Definition emit_done (h : nat) (s : DState) (st : State) : State :=
  match items st !! h with
  | Some it =>
      if isDone it then st
      else if decide (s = progressing) then st
      else
        let st1 := with_items (<[h := report s true (receivedBytes it) it]> (items st)) st in
        foldl (λ acc k, on_done h s k acc) st1 (observers it)
  | None => st
  end.

(** [item.cancel()] *)
Definition item_cancel (h : nat) (st : State) : State := emit_done h cancelled st.

(** *** The other methods *)

Definition cancel (name : string) (st : State) : State :=
  match List.find (λ h, bool_decide (filename <$> items st !! h = Some name)) (tasks st) with
  | Some h =>
      if bool_decide (state <$> items st !! h = Some progressing)
      then item_cancel h st else st
  | None => st
  end.

Definition cancelAll (st : State) : State :=
  foldl (λ acc h, item_cancel h acc) st (tasks st).

Definition clear (st : State) : State := with_tasks [] (cancelAll st).

Definition dashboard (st : State) : list Message :=
  omap (λ h, (λ it, message_of it (state it)) <$> items st !! h) (tasks st).

(** *** Runs *)

Inductive Event :=
| Download (url : string) (savePath : option string)
| WillDownload (name : string) (total : Z)
| Updated (h : nat) (s : DState) (received : Z) (bytes : string)
| Done (h : nat) (s : DState)
| Cancel (name : string)
| CancelAll
| Clear.

Definition step (st : State) (e : Event) : State :=
  match e with
  | Download url savePath => (download url savePath st).1
  | WillDownload name total => emit_will_download name total st
  | Updated h s received bytes => emit_updated h s received bytes st
  | Done h s => emit_done h s st
  | Cancel name => cancel name st
  | CancelAll => cancelAll st
  | Clear => clear st
  end.

Definition run (es : list Event) (st : State) : State := foldl step st es.

(** The path a call's own listener gives to an item named [name]. *)
Definition placed (savePath : option string) (name : string) : string :=
  match savePath with
  | Some p => if truthy p then p else path.join [downloads; name]
  | None => path.join [downloads; name]
  end.

End Methods.

(** Reports on item [h], each with the state, the count and the bytes. *)
Definition progress (h : nat) (ups : list (DState * Z * string)) : list Event :=
  (λ u, Updated h u.1.1 u.1.2 u.2) <$> ups.

Definition interrupted_once (ups : list (DState * Z * string)) : bool :=
  existsb (λ u, bool_decide (u.1.1 = interrupted)) ups.

(** The life of one download that has its session for itself. *)
Definition alone (url : string) (savePath : option string) (name : string) (total : Z)
    (ups : list (DState * Z * string)) (s : DState) : list Event :=
  Download url savePath :: WillDownload name total :: progress 0 ups ++ [Done 0 s].

Definition never_rejected (st : State) : Prop :=
  Forall (λ p, ∀ reason, p ≠ Rejected reason) (promises st).

(** One item, placed at [p], not done, observed by the first promise only,
    which is still pending unless an interruption was reported. *)
Definition under_way (p : string) (seen : bool) (st : State) : Prop :=
  ∃ it, items st = [it] ∧ savePath it = p ∧ isDone it = false ∧ observers it = [0%nat]
        ∧ promises st = [if seen then Resolved None else Pending].

End Downloader.

(** * Sample data *)

Module Samples.

Definition cfg0 : Settings := {| userDataPath := "/lib/u1"; userId := "u1" |}.

Definition clock0 (n : nat) : Z := 1000 + Z.of_nat n.

Definition talk : Audio.t :=
  Audio.mk "id-talk" "/tmp/talk.mp3" "abc123" "Talk" "" {[ "extname" := ".mp3" ]} ""
           0 0 None None 0.

Definition whisper_ok : Transcription.Whisper :=
  {| Transcription.transcribe := λ _ _ _, inl (Some "base", JArr [JStr "hello"]);
     Transcription.groupTranscription := λ raw, inl raw |}.


(** A transcription of the audio [target], in state [s]. *)
Definition transcription_of (s : Transcription.State) (target : string) : Transcription.t :=
  Transcription.mk "t1" target "Audio" "abc123" s None None None None 0.

Definition audios0 : gmap string Audio.t := {[ "id-talk" := talk ]}.

End Samples.

(** More sample data: a blob storage that accepts, one that refuses, one
    that cannot be reached. *)
Module StorageSamples.

Definition accepts : Storage := {| put := λ _ _, inl {| success := true; data := "ok" |} |}.
Definition refuses : Storage := {| put := λ _ _, inl {| success := false; data := "quota" |} |}.
Definition offline : Storage := {| put := λ _ _, inr (Rejection "ECONNREFUSED") |}.

(** [talk], synced at 5 after its last update at 3. *)
Definition talk_synced : Audio.t :=
  Audio.mk "id-talk" "/tmp/talk.mp3" "abc123" "Talk" "" {[ "extname" := ".mp3" ]} ""
           0 0 (Some 5%Z) None 3.

Definition rename (n : string) (x : Audio.t) : Audio.t :=
  Audio.mk (Audio.id x) (Audio.source x) (Audio.md5 x) n (Audio.description x)
           (Audio.metadata x) (Audio.coverUrl x) (Audio.recordingsCount x)
           (Audio.recordingsDuration x) (Audio.syncedAt x) (Audio.uploadedAt x)
           (Audio.updatedAt x).

End StorageSamples.

(** A library on disk: the formats, a stand-in for md5 that sends the bytes of
    [talk.mp3] to [abc123], and the world before and after the first
    ingestion of that file. *)
Module LibrarySamples.

Definition uuid0 : Uuid :=
  {| v5 := λ name namespace, "uuid5(" +:+ namespace +:+ "," +:+ name +:+ ")";
     URL := "6ba7b811-9dad-11d1-80b4-00c04fd430c8" |}.

Definition ffmpeg0 : Ffmpeg :=
  {| generateMetadata := λ _, inl {[ "duration" := "12.5" ]} |}.

Definition env0 : Library.Env :=
  {| Library.cfg := Samples.cfg0;
     Library.AudioFormats := ["mp3"; "wav"];
     Library.VideoFormats := ["mp4"];
     Library.hashFile := λ bytes, if decide (bytes = "ID3-talk") then "abc123" else "d41d8c";
     Library.ffmpeg := ffmpeg0;
     Library.uuid := uuid0;
     Library.startCase := λ s, s |}.

Definition no_params : Library.Params :=
  {| Library.p_name := None; Library.p_description := None;
     Library.p_source := None; Library.p_coverUrl := None |}.

Definition empty_library : Library.World :=
  {| Library.fs := {[ "/tmp/talk.mp3" := "ID3-talk" ]};
     Library.audios := ∅; Library.videos := ∅; Library.recordings := ∅;
     Library.transcriptions := []; Library.scheduled := []; Library.time := 1000 |}.

Definition library_with_talk : Library.World :=
  match Library.Audio_buildFromLocalFile env0 1 "/tmp/talk.mp3" no_params empty_library with
  | Some (w, _) => w
  | None => empty_library
  end.

End LibrarySamples.

(** A studio: one audio and one video without recordings, and a five-second
    clip recorded against each. *)
Module RecordingSamples.

Definition lecture : Video.t :=
  Video.mk "v1" "/tmp/lecture.mp4" "fed987" "Lecture" "" {[ "extname" := ".mp4" ]} ""
           0 0 None None 0.

Definition song : Audio.t :=
  Audio.mk "a1" "/tmp/song.mp3" "abc123" "Song" "" {[ "extname" := ".mp3" ]} ""
           0 0 None None 0.

Definition studio : Library.World :=
  {| Library.fs := ∅;
     Library.audios := {[ "a1" := song ]};
     Library.videos := {[ "v1" := lecture ]};
     Library.recordings := ∅;
     Library.transcriptions := []; Library.scheduled := []; Library.time := 2000 |}.

Definition clip (targetType targetId : string) : Recording.t :=
  Recording.mk "r1" targetId targetType "0cc175" "0cc175.wav" None "hello" 5 None None 0.

End RecordingSamples.

(** Two runs of the downloader: a second download that starts while the first
    is under way, and a download that is interrupted and resumes. *)
Module DownloadSamples.

Definition downloads0 : string := "/home/u/Downloads".

Definition overlapping : list Downloader.Event :=
  [ Downloader.Download "https://example.org/a.mp3" None;
    Downloader.WillDownload "a.mp3" 100;
    Downloader.Updated 0 Downloader.progressing 40 "aaaa";
    Downloader.Download "https://example.org/b.mp4" None;
    Downloader.WillDownload "b.mp4" 200;
    Downloader.Updated 1 Downloader.progressing 200 "bbbbbbbb";
    Downloader.Done 1 Downloader.completed;
    Downloader.Cancel "a.mp3" ].

Definition resumed : list (Downloader.DState * Z * string) :=
  [ (Downloader.interrupted, 40%Z, "aaaa");
    (Downloader.progressing, 100%Z, "aaaaaaaaaa") ].

End DownloadSamples.

(** A remote API that acknowledges every transcription. *)
Module SyncSamples.

Definition acknowledges : Transcription.WebApi :=
  {| Transcription.syncTranscription := λ _, inl tt |}.

Definition done_talk : Transcription.t :=
  Transcription.mk "t1" "id-talk" "Audio" "abc123" Transcription.finished
    (Some "whisper") (Some "base") (Some (JArr [JStr "hello"])) None 900.

End SyncSamples.

(** An environment whose format tables overlap: [ogg] is listed as audio and
    as video. *)
Module OverlapSamples.

Definition env_overlap : Library.Env :=
  {| Library.cfg := Samples.cfg0;
     Library.AudioFormats := ["mp3"; "ogg"];
     Library.VideoFormats := ["mp4"; "ogg"];
     Library.hashFile := λ _, "0cc175";
     Library.ffmpeg := LibrarySamples.ffmpeg0;
     Library.uuid := LibrarySamples.uuid0;
     Library.startCase := λ s, s |}.

Definition with_clip : Library.World :=
  {| Library.fs := {[ "/tmp/clip.ogg" := "OggS" ]};
     Library.audios := ∅; Library.videos := ∅; Library.recordings := ∅;
     Library.transcriptions := []; Library.scheduled := []; Library.time := 1000 |}.

End OverlapSamples.

(** A clip that was never uploaded, and the recordings API. *)
Module ClipSamples.

Definition api : Recording.WebApi := {| Recording.syncRecording := λ _, inl tt |}.

Definition fresh_clip : Recording.t := RecordingSamples.clip "Audio" "a1".

End ClipSamples.

(** A speech service that answers, and a recording read against two
    different reference texts. *)
Module AssessSamples.

Definition service : Assessment.Remote :=
  {| Assessment.generateSpeechToken := inl ("token", "eastus");
     Assessment.pronunciationAssessment := λ _ _ _ _,
       inl {| Assessment.r_pronunciationScore := JNum 90;
              Assessment.r_accuracyScore := JNum 91;
              Assessment.r_completenessScore := JNum 92;
              Assessment.r_fluencyScore := JNum 93;
              Assessment.r_prosodyScore := JNum 94;
              Assessment.r_contentAssessmentResult := None;
              Assessment.r_detailResult := JNull |};
     Assessment.camelcaseKeys := λ j, j |}.

Definition reread (text : string) (x : Recording.t) : Recording.t :=
  Recording.mk (Recording.id x) (Recording.targetId x) (Recording.targetType x)
    (Recording.md5 x) (Recording.filename x) (Recording.referenceId x) text
    (Recording.duration x) (Recording.syncedAt x) (Recording.uploadedAt x)
    (Recording.updatedAt x).

Definition no_assessments : Assessment.Store :=
  {| Assessment.table := []; Assessment.effects := [] |}.

End AssessSamples.

(** * Properties *)

(** ** Transcription.process *)

Section ProcessFacts.
Import Transcription.

Ltac run_process :=
  unfold process, start, mbind, M_bind, bind, mret, M_ret, ret, get, await, throw,
    try_catch, update, emit, modify; simpl.

(** What a call does, case by case. *)
Lemma process_cases cfg whisper clock audios videos force (r : Run t Effect) :
  let out := process cfg whisper clock audios videos force r in
  match decide (state (this r) = processing) with
  | left _ => out = (r, inl tt)
  | right _ =>
      match resolveFilePath cfg audios videos (this r) with
      | inr e => out = (r, inr e)
      | inl fp =>
          if truthy fp then
            let x1 := setUpdatedAt (clock (ticks r)) (set_state processing (this r)) in
            let es1 := effects r ++ [Update (this r) x1] ++ [WhisperTranscribe fp force extra_args] in
            let rollback e :=
              let x2 := setUpdatedAt (clock (Datatypes.S (ticks r))) (set_state pending x1) in
              out = ({| this := x2; effects := es1 ++ [Update x1 x2];
                        ticks := Datatypes.S (Datatypes.S (ticks r)) |}, inr e) in
            match transcribe whisper fp force extra_args with
            | inr e => rollback e
            | inl (m, raw) =>
                match groupTranscription whisper raw with
                | inr e => rollback e
                | inl res =>
                    let x2 := setUpdatedAt (clock (Datatypes.S (ticks r))) (set_finished m res x1) in
                    out = ({| this := x2; effects := (es1 ++ [Update x1 x2]) ++ [SyncScheduled];
                              ticks := Datatypes.S (Datatypes.S (ticks r)) |}, inl tt)
                end
            end
          else out = (r, inr (Error "No file path."))
      end
  end.
Proof.
  run_process. destruct r as [x es n]; simpl.
  case_decide as Hst; [done|].
  destruct (resolveFilePath cfg audios videos x) as [fp|e]; [|done].
  destruct (truthy fp); simpl; [|done].
  destruct (transcribe whisper fp force extra_args) as [[m raw]|e]; simpl.
  - destruct (groupTranscription whisper raw) as [res|e]; simpl.
    + by rewrite <- !app_assoc.
    + by rewrite <- !app_assoc.
  - by rewrite <- !app_assoc.
Qed.









End ProcessFacts.

(** ** Sync status and upload *)

Section SyncFacts.

Ltac run_upload :=
  unfold mbind, M_bind, bind, mret, M_ret, ret, get, await, throw,
    try_catch, update, emit, modify, now; simpl.

Ltac synced_iff :=
  match goal with
  | |- context [match ?o with Some _ => _ | None => _ end] => destruct o as [s|]
  end;
  [ rewrite bool_decide_eq_true; split;
    [ eauto | intros (s' & [= <-] & H); exact H ]
  | split; [ discriminate | intros (s' & [=] & _) ] ].

Ltac stale_after_update :=
  match goal with
  | Hstale : ∀ s, ?o = Some s → _ |- _ =>
      simpl; destruct o as [s|] eqn:Hs; [|reflexivity];
      apply bool_decide_eq_false; specialize (Hstale s eq_refl); simpl; lia
  end.

(** C6: for Audio, Video, Recording and Transcription alike, [isSynced] holds
    exactly when [syncedAt] is set and not earlier than [updatedAt]; hence an
    update that leaves [syncedAt] older than the new [updatedAt] it stamps
    makes [isSynced] false, whatever else it assigns. *)
Theorem isSynced_iff_not_stale :
  (∀ x, Audio.isSynced x = true ↔ ∃ s, Audio.syncedAt x = Some s ∧ (Audio.updatedAt x ≤ s)%Z)
  ∧ (∀ x, Video.isSynced x = true ↔ ∃ s, Video.syncedAt x = Some s ∧ (Video.updatedAt x ≤ s)%Z)
  ∧ (∀ x, Recording.isSynced x = true
          ↔ ∃ s, Recording.syncedAt x = Some s ∧ (Recording.updatedAt x ≤ s)%Z)
  ∧ (∀ x, Transcription.isSynced x = true
          ↔ ∃ s, Transcription.syncedAt x = Some s ∧ (Transcription.updatedAt x ≤ s)%Z)
  ∧ (∀ E clock (hook : _ → _ → E) assign r,
       (∀ s, Audio.syncedAt (assign (this r)) = Some s → (s < clock (ticks r))%Z) →
       Audio.isSynced (this (update clock hook assign r).1) = false)
  ∧ (∀ E clock (hook : _ → _ → E) assign r,
       (∀ s, Video.syncedAt (assign (this r)) = Some s → (s < clock (ticks r))%Z) →
       Video.isSynced (this (update clock hook assign r).1) = false)
  ∧ (∀ E clock (hook : _ → _ → E) assign r,
       (∀ s, Recording.syncedAt (assign (this r)) = Some s → (s < clock (ticks r))%Z) →
       Recording.isSynced (this (update clock hook assign r).1) = false)
  ∧ (∀ E clock (hook : _ → _ → E) assign r,
       (∀ s, Transcription.syncedAt (assign (this r)) = Some s → (s < clock (ticks r))%Z) →
       Transcription.isSynced (this (update clock hook assign r).1) = false).
Proof.
  split; [|split; [|split; [|split; [|split; [|split; [|split]]]]]].
  - intros x. unfold Audio.isSynced. synced_iff.
  - intros x. unfold Video.isSynced. synced_iff.
  - intros x. unfold Recording.isSynced. synced_iff.
  - intros x. unfold Transcription.isSynced. synced_iff.
  - intros E clock hook assign r Hstale. unfold Audio.isSynced. stale_after_update.
  - intros E clock hook assign r Hstale. unfold Video.isSynced. stale_after_update.
  - intros E clock hook assign r Hstale. unfold Recording.isSynced. stale_after_update.
  - intros E clock hook assign r Hstale. unfold Transcription.isSynced. stale_after_update.
Qed.

Lemma isSynced_iff_not_stale_witness :
  Audio.isSynced StorageSamples.talk_synced = true
  ∧ Audio.isSynced
      (this (update Samples.clock0 Audio.Update (StorageSamples.rename "Talk 2")
               (start StorageSamples.talk_synced)).1) = false.
Proof.
  split.
  - apply (proj1 isSynced_iff_not_stale StorageSamples.talk_synced).
    exists 5%Z. split; [reflexivity | simpl; lia].
  - apply (proj1 (proj2 (proj2 (proj2 (proj2 isSynced_iff_not_stale))))
             Audio.Effect Samples.clock0 Audio.Update (StorageSamples.rename "Talk 2")
             (start StorageSamples.talk_synced)).
    intros s [= <-]. vm_compute. reflexivity.
Defined.

(** C7: [upload] does nothing on an asset that has [uploadedAt] unless
    [force] is set.  Otherwise it puts the blob once, and: when the storage
    reports success, [uploadedAt] becomes the time read at that moment and the
    call returns; when it reports no success or does not answer, the call
    raises that error and the instance is as before, [uploadedAt] included. *)
Theorem upload_stamps_on_success_only :
  (∀ cfg storage clock force (r : Run Audio.t Audio.Effect),
     let out := Audio.upload cfg storage clock force r in
     (Audio.isUploaded (this r) = true → force = false → out = (r, inl tt))
     ∧ (Audio.isUploaded (this r) = false ∨ force = true →
        match put storage (Audio.md5 (this r)) (Audio.filePath cfg (this r)) with
        | inl res =>
            if success res
            then out.2 = inl tt ∧ Audio.uploadedAt (this out.1) = Some (clock (ticks r))
            else out.2 = inr (Error (data res)) ∧ this out.1 = this r
        | inr err => out.2 = inr err ∧ this out.1 = this r
        end))
  ∧ (∀ cfg storage clock force (r : Run Video.t Video.Effect),
     let out := Video.upload cfg storage clock force r in
     (Video.isUploaded (this r) = true → force = false → out = (r, inl tt))
     ∧ (Video.isUploaded (this r) = false ∨ force = true →
        match put storage (Video.md5 (this r)) (Video.filePath cfg (this r)) with
        | inl res =>
            if success res
            then out.2 = inl tt ∧ Video.uploadedAt (this out.1) = Some (clock (ticks r))
            else out.2 = inr (Error (data res)) ∧ this out.1 = this r
        | inr err => out.2 = inr err ∧ this out.1 = this r
        end)).
Proof.
  split.
  - intros cfg storage clock force [x es n]; simpl. unfold Audio.upload. run_upload. split.
    + intros -> ->. reflexivity.
    + intros Hgo.
      assert (Audio.isUploaded x && negb force = false) as ->.
      { destruct Hgo as [-> | ->]; [reflexivity | apply andb_false_r]. }
      destruct (put storage _ _) as [[ok d]|err]; simpl; [destruct ok; simpl|]; by split.
  - intros cfg storage clock force [x es n]; simpl. unfold Video.upload. run_upload. split.
    + intros -> ->. reflexivity.
    + intros Hgo.
      assert (Video.isUploaded x && negb force = false) as ->.
      { destruct Hgo as [-> | ->]; [reflexivity | apply andb_false_r]. }
      destruct (put storage _ _) as [[ok d]|err]; simpl; [destruct ok; simpl|]; by split.
Qed.

Lemma upload_stamps_on_success_only_witness :
  Audio.uploadedAt
    (this (Audio.upload Samples.cfg0 StorageSamples.accepts Samples.clock0 false
             (start Samples.talk)).1) = Some 1000%Z
  ∧ (Audio.upload Samples.cfg0 StorageSamples.refuses Samples.clock0 false
       (start Samples.talk)).2 = inr (Error "quota").
Proof.
  split.
  - apply (proj1 upload_stamps_on_success_only Samples.cfg0 StorageSamples.accepts
             Samples.clock0 false (start Samples.talk)).
    left. reflexivity.
  - apply (proj1 upload_stamps_on_success_only Samples.cfg0 StorageSamples.refuses
             Samples.clock0 false (start Samples.talk)).
    left. reflexivity.
Defined.

End SyncFacts.

(** ** Ingestion *)

Section IngestFacts.
Import Library.

Lemma Audio_setup_id cfg ffmpeg uuid audio :
  Audio.id (Audio.setupDefaultAttributes cfg ffmpeg uuid audio)
  = v5 uuid (userId cfg +:+ "/" +:+ Audio.md5 audio) (URL uuid)
  ∧ Audio.md5 (Audio.setupDefaultAttributes cfg ffmpeg uuid audio) = Audio.md5 audio.
Proof.
  unfold Audio.setupDefaultAttributes.
  by destruct (generateMetadata ffmpeg _).
Qed.







(** Ingesting bytes that an Audio row already carries: the copy overwrites
    the library's file, the INSERT is refused, and the handler of the refusal
    removes the file. *)
Lemma duplicate_audio_ingest env fuel filePath params w bytes key row :
  fs w !! filePath = Some bytes →
  format_of (path.extname filePath) ∉ VideoFormats env →
  format_of (path.extname filePath) ∈ AudioFormats env →
  audios w !! key = Some row →
  Audio.md5 row = hashFile env bytes →
  let destFile := path.join [path.join [userDataPath (cfg env); "audios"];
                             hashFile env bytes +:+ path.extname filePath] in
  filePath ≠ destFile →
  ∃ w' column,
    Audio_buildFromLocalFile env (Datatypes.S fuel) filePath params w
    = Some (w', inr (UniqueConstraintError column))
    ∧ audios w' = audios w ∧ videos w' = videos w
    ∧ fs w' !! destFile = None.
Proof.
  intros Hfile Hnv Ha Hrow Hmd5 destFile Hne. simpl. rewrite Hfile.
  rewrite decide_False by done. rewrite decide_False by (by intros ?).
  rewrite decide_False by done. fold destFile.
  unfold Audio_save.
  destruct (Audio_setup_id (cfg env) (ffmpeg env) (uuid env)
              (Audio.mk "" (default "" (p_source params)) (hashFile env bytes)
                 (default (startCase env (basename filePath (path.extname filePath)))
                    (p_name params))
                 (default "" (p_description params))
                 {[ "extname" := path.extname filePath ]}
                 (default "" (p_coverUrl params)) 0 0 None None 0)) as [_ Hm].
  revert Hm. generalize (Audio.setupDefaultAttributes (cfg env) (ffmpeg env) (uuid env)
              (Audio.mk "" (default "" (p_source params)) (hashFile env bytes)
                 (default (startCase env (basename filePath (path.extname filePath)))
                    (p_name params))
                 (default "" (p_description params))
                 {[ "extname" := path.extname filePath ]}
                 (default "" (p_coverUrl params)) 0 0 None None 0)).
  intros x Hm. simpl in Hm.
  case_decide.
  - eexists _, _. split; [reflexivity|]. simpl. repeat split.
    rewrite delete_insert_eq. apply lookup_delete_eq.
  - rewrite decide_True.
    + eexists _, _. split; [reflexivity|]. simpl. repeat split.
      rewrite delete_insert_eq. apply lookup_delete_eq.
    + exists key, row. simpl. split; [done|]. congruence.
Qed.

(** C4 at the scenario of the design document: [talk.mp3] is in the library
    (row and file); ingesting it again is refused and adds no row, but the
    library's file of the existing row is gone afterwards. *)
Theorem duplicate_ingest_deletes_library_copy :
  fs LibrarySamples.library_with_talk !! "/lib/u1/audios/abc123.mp3" = Some "ID3-talk"
  ∧ (∃ row, audios LibrarySamples.library_with_talk
              !! "uuid5(6ba7b811-9dad-11d1-80b4-00c04fd430c8,u1/abc123)" = Some row
            ∧ Audio.filePath Samples.cfg0 row = "/lib/u1/audios/abc123.mp3")
  ∧ ∃ w',
      Audio_buildFromLocalFile LibrarySamples.env0 1 "/tmp/talk.mp3"
        LibrarySamples.no_params LibrarySamples.library_with_talk
      = Some (w', inr (UniqueConstraintError "id"))
      ∧ audios w' = audios LibrarySamples.library_with_talk
      ∧ fs w' !! "/lib/u1/audios/abc123.mp3" = None.
Proof.
  split; [by vm_compute|]. split.
  - eexists. split; by vm_compute.
  - eexists. split; [by vm_compute|]. split; by vm_compute.
Qed.

End IngestFacts.

(** ** Recordings and the counters of their target *)

Section RecordingFacts.
Import Library.

(** For an Audio target that exists, creation adds one recording and its
    duration to the counters of the row. *)
Lemma increaseResourceCache_audio at_ recording audios audio :
  Recording.targetType recording = "Audio" →
  audios !! Recording.targetId recording = Some audio →
  ∃ audio',
    Recording.increaseResourceCache at_ recording audios !! Recording.targetId recording
    = Some audio'
    ∧ Audio.recordingsCount audio' = (Audio.recordingsCount audio + 1)%Z
    ∧ Audio.recordingsDuration audio'
      = (Audio.recordingsDuration audio + Recording.duration recording)%Z.
Proof.
  intros Htype Hrow. unfold Recording.increaseResourceCache.
  rewrite decide_False by (by intros ?). rewrite Hrow.
  eexists. split; [apply lookup_insert_eq|].
  unfold Recording.increment; simpl. split; lia.
Qed.

Lemma decreaseResourceCache_audio at_ recording audios audio :
  Recording.targetType recording = "Audio" →
  audios !! Recording.targetId recording = Some audio →
  ∃ audio',
    Recording.decreaseResourceCache at_ recording audios !! Recording.targetId recording
    = Some audio'
    ∧ Audio.recordingsCount audio' = (Audio.recordingsCount audio - 1)%Z
    ∧ Audio.recordingsDuration audio'
      = (Audio.recordingsDuration audio - Recording.duration recording)%Z.
Proof.
  intros Htype Hrow. unfold Recording.decreaseResourceCache.
  rewrite decide_True by done. rewrite Hrow.
  eexists. split; [apply lookup_insert_eq|].
  unfold Recording.decrement, Recording.increment; simpl. split; lia.
Qed.

(** Neither hook reaches the videos. *)
Lemma Recording_hooks_keep_videos cfg recording w :
  videos (Recording_create recording w).1 = videos w
  ∧ videos (Recording_destroy cfg recording w) = videos w.
Proof.
  split; [|reflexivity].
  unfold Recording_create. by repeat case_decide.
Qed.

(** C8 at a Video target: after a five-second clip is created against the
    video there is one live recording of five seconds for it, and the video's
    counters are still zero; the same clip against the audio counts. *)
Theorem video_recording_is_not_counted :
  (∃ w' row,
     Recording_create (RecordingSamples.clip "Video" "v1") RecordingSamples.studio
     = (w', inl row)
     ∧ live_count "Video" "v1" w' = 1%Z ∧ live_duration "Video" "v1" w' = 5%Z
     ∧ Video.recordingsCount <$> videos w' !! "v1" = Some 0%Z
     ∧ Video.recordingsDuration <$> videos w' !! "v1" = Some 0%Z)
  ∧ (∃ w' row,
     Recording_create (RecordingSamples.clip "Audio" "a1") RecordingSamples.studio
     = (w', inl row)
     ∧ live_count "Audio" "a1" w' = 1%Z ∧ live_duration "Audio" "a1" w' = 5%Z
     ∧ Audio.recordingsCount <$> audios w' !! "a1" = Some 1%Z
     ∧ Audio.recordingsDuration <$> audios w' !! "a1" = Some 5%Z).
Proof.
  split; eexists _, _; (split; [by vm_compute|]); repeat split; by vm_compute.
Qed.

End RecordingFacts.

(** ** Downloads *)

Section DownloadFacts.
Import Downloader.

Lemma foldl_preserves {A B} (P : A → Prop) (f : A → B → A) (l : list B) (a : A) :
  (∀ a x, P a → P (f a x)) → P a → P (foldl f a l).
Proof. intros Hf. revert a. induction l as [|x l IH]; simpl; eauto. Qed.

Lemma resolve_never_rejected k v st : never_rejected st → never_rejected (resolve k v st).
Proof.
  unfold never_rejected, resolve. simpl. intros H.
  apply Forall_alter; [done|]. intros p _ Hp reason. by destruct p.
Qed.

Lemma on_updated_never_rejected h s k st :
  never_rejected st → never_rejected (on_updated h s k st).
Proof.
  unfold on_updated. destruct (items st !! h); [|done].
  case_decide; [|done]. intros Hok. by apply resolve_never_rejected.
Qed.

Lemma on_done_never_rejected h s k st :
  never_rejected st → never_rejected (on_done h s k st).
Proof.
  unfold on_done. destruct (items st !! h); [|done].
  case_decide; intros Hok; by apply resolve_never_rejected.
Qed.

Lemma emit_done_never_rejected h s st :
  never_rejected st → never_rejected (emit_done h s st).
Proof.
  unfold emit_done. destruct (items st !! h) as [it|]; [|done].
  destruct (isDone it); [done|]. case_decide; [done|]. intros Hok.
  apply foldl_preserves; [|done]. intros; by apply on_done_never_rejected.
Qed.

Lemma step_never_rejected downloads st e :
  never_rejected st → never_rejected (step downloads st e).
Proof.
  intros H. destruct e as [url sp|name total|h s n b|h s|name| |]; simpl.
  - unfold never_rejected in *; simpl. apply Forall_app. split; [done|].
    by repeat constructor.
  - unfold emit_will_download. apply foldl_preserves; [|done]. by intros.
  - unfold emit_updated. destruct (items st !! h) as [it|]; [|done].
    destruct (isDone it); [done|]. case_decide; [|done].
    apply foldl_preserves; [|done]. intros; by apply on_updated_never_rejected.
  - by apply emit_done_never_rejected.
  - unfold cancel. destruct (List.find _ _); [|done].
    case_bool_decide; [|done]. by apply emit_done_never_rejected.
  - unfold cancelAll. apply foldl_preserves; [|done].
    intros; by apply emit_done_never_rejected.
  - unfold clear, cancelAll.
    assert (never_rejected (foldl (λ acc h, item_cancel h acc) st (tasks st))) as H'; [|done].
    apply foldl_preserves; [|done]. intros; by apply emit_done_never_rejected.
Qed.

Lemma run_never_rejected downloads es st :
  never_rejected st → never_rejected (run downloads es st).
Proof.
  unfold run. apply foldl_preserves. intros; by apply step_never_rejected.
Qed.

(** The [done] handlers leave the items alone. *)
Lemma foldl_on_done_items h s ks st :
  items (foldl (λ acc k, on_done h s k acc) st ks) = items st.
Proof.
  revert st. induction ks as [|k ks IH]; intros st; simpl; [done|].
  rewrite IH. unfold on_done. destruct (items st !! h); [|done]. by case_decide.
Qed.

Lemma foldl_on_done_fs h s ks st it :
  s ≠ completed →
  items st !! h = Some it →
  ks ≠ [] ∨ fs st !! savePath it = None →
  fs (foldl (λ acc k, on_done h s k acc) st ks) !! savePath it = None.
Proof.
  intros Hs. revert st. induction ks as [|k ks IH]; intros st Hit Hgone; simpl.
  - by destruct Hgone.
  - apply IH.
    + unfold on_done. rewrite Hit. by rewrite decide_False.
    + right. unfold on_done. rewrite Hit. rewrite decide_False by done. simpl.
      apply lookup_delete_eq.
Qed.

(** Whatever else goes on in the session, an item that ends cancelled or
    interrupted has its file removed, provided some call listens to it. *)
Lemma done_removes_partial_file h s st it :
  items st !! h = Some it → isDone it = false → observers it ≠ [] →
  s = cancelled ∨ s = interrupted →
  fs (emit_done h s st) !! savePath it = None.
Proof.
  intros Hit Hdone Hobs Hs. unfold emit_done. rewrite Hit, Hdone.
  rewrite decide_False by (destruct Hs; by subst).
  pose proof (lookup_lt_Some _ _ _ Hit) as Hlt.
  eapply (foldl_on_done_fs h s (observers it) _ (report s true (receivedBytes it) it)).
  - destruct Hs; by subst.
  - simpl. by apply list_lookup_insert_eq.
  - by left.
Qed.

(** [cancel(name)] on the progressing item of that name, and [cancelAll()],
    end the item as cancelled. *)
Lemma cancel_ends_item name st h it :
  tasks st = [h] → items st !! h = Some it → filename it = name → state it = progressing →
  cancel name st = emit_done h cancelled st ∧ cancelAll st = emit_done h cancelled st.
Proof.
  intros Ht Hit Hname Hstate. unfold cancel, cancelAll, item_cancel. rewrite Ht. simpl.
  rewrite Hit. simpl. rewrite Hname. rewrite bool_decide_eq_true_2 by done.
  rewrite Hit. simpl. rewrite Hstate. by rewrite bool_decide_eq_true_2.
Qed.

Lemma updated_under_way p seen s n b st :
  under_way p seen st →
  under_way p (seen || bool_decide (s = interrupted)) (emit_updated 0 s n b st).
Proof.
  intros (it & Hitems & Hp & Hdone & Hobs & Hprom).
  unfold emit_updated. rewrite Hitems. simpl. rewrite Hdone.
  case_decide as Hs.
  - rewrite Hobs. simpl. unfold on_updated. simpl.
    case_decide as Hi.
    + subst s. rewrite bool_decide_eq_true_2 by done. rewrite orb_true_r.
      eexists. simpl. repeat split; try done.
      rewrite Hprom. by destruct seen.
    + rewrite bool_decide_eq_false_2 by done. rewrite orb_false_r.
      eexists. simpl. repeat split; done.
  - rewrite bool_decide_eq_false_2 by (intros ->; apply Hs; by right).
    rewrite orb_false_r. by exists it.
Qed.

Lemma progress_under_way downloads p ups : ∀ seen st,
  under_way p seen st →
  under_way p (seen || interrupted_once ups) (run downloads (progress 0 ups) st).
Proof.
  induction ups as [|[[s n] b] ups IH]; intros seen st Hst; simpl.
  - by rewrite orb_false_r.
  - rewrite orb_assoc. apply IH. by apply updated_under_way.
Qed.

Lemma done_under_way p seen s st :
  s ≠ progressing → under_way p seen st →
  promises (emit_done 0 s st)
  = [Resolved (if bool_decide (s = completed) && negb seen then Some p else None)]
  ∧ (s ≠ completed → fs (emit_done 0 s st) !! p = None).
Proof.
  intros Hs (it & Hitems & Hp & Hdone & Hobs & Hprom).
  unfold emit_done. rewrite Hitems. simpl. rewrite Hdone.
  rewrite decide_False by done. rewrite Hobs. simpl.
  unfold on_done. simpl. rewrite Hp.
  case_decide as Hc; simpl; rewrite Hprom.
  - rewrite bool_decide_eq_true_2 by done. split; [by destruct seen|done].
  - rewrite bool_decide_eq_false_2 by done. split; [by destruct seen|].
    intros _. apply lookup_delete_eq.
Qed.

(** C9 at two overlapping downloads: the second one is announced to the
    listener the first call left on the session, so its completion settles
    the first promise; when the first transfer is then cancelled its file is
    removed, but its promise holds the path of the other file. *)
Theorem cancelled_download_resolves_with_other_path :
  let st := run DownloadSamples.downloads0 DownloadSamples.overlapping (init ∅) in
  state <$> items st !! 0%nat = Some cancelled
  ∧ savePath <$> items st !! 0%nat = Some "/home/u/Downloads/a.mp3"
  ∧ fs st !! "/home/u/Downloads/a.mp3" = None
  ∧ promises st !! 0%nat = Some (Resolved (Some "/home/u/Downloads/b.mp4")).
Proof. repeat split; by vm_compute. Qed.

(** C10, as stated, fails: a transfer that reports an interruption, resumes
    and completes leaves its file at the save path and the promise resolved
    with [undefined]. *)
Lemma completed_download_may_resolve_undefined :
  state <$> items (run DownloadSamples.downloads0
                     (alone "https://example.org/a.mp3" None "a.mp3" 100
                        DownloadSamples.resumed completed) (init ∅)) !! 0%nat
  = Some completed
  ∧ fs (run DownloadSamples.downloads0
          (alone "https://example.org/a.mp3" None "a.mp3" 100
             DownloadSamples.resumed completed) (init ∅)) !! "/home/u/Downloads/a.mp3"
    = Some "aaaaaaaaaa"
  ∧ promises (run DownloadSamples.downloads0
                (alone "https://example.org/a.mp3" None "a.mp3" 100
                   DownloadSamples.resumed completed) (init ∅))
    = [Resolved None].
Proof. repeat split; by vm_compute. Qed.

(** C10, amended: no run of the downloader rejects a promise; and for a
    download that has its session for itself, once the transfer is done the
    promise is resolved, with the save path when the transfer completed and
    no interruption was reported on the way, with [undefined] otherwise, and
    in every case but completion the file at the save path is removed. *)
Theorem download_resolves_never_rejects :
  (∀ downloads es files, never_rejected (run downloads es (init files)))
  ∧ (∀ downloads url savePath name total ups s files,
       s ≠ progressing →
       let st := run downloads (alone url savePath name total ups s) (init files) in
       promises st
       = [Resolved (if bool_decide (s = completed) && negb (interrupted_once ups)
                    then Some (placed downloads savePath name) else None)]
       ∧ (s ≠ completed → fs st !! placed downloads savePath name = None)).
Proof.
  split.
  - intros downloads es files. apply run_never_rejected. constructor.
  - intros downloads url savePath name total ups s files Hs. unfold alone, run. simpl.
    rewrite foldl_app. simpl.
    apply (done_under_way _ (false || interrupted_once ups)); [done|].
    apply (progress_under_way downloads). eexists. simpl.
    split; [reflexivity|]. unfold placed.
    destruct savePath as [p|]; [destruct (truthy p)|]; by repeat split.
Qed.

Lemma download_resolves_never_rejects_witness :
  promises (run DownloadSamples.downloads0
              (alone "https://example.org/a.mp3" None "a.mp3" 100
                 DownloadSamples.resumed cancelled) (init ∅))
  = [Resolved None].
Proof.
  refine (proj1 (proj2 download_resolves_never_rejects DownloadSamples.downloads0
                   "https://example.org/a.mp3" None "a.mp3" 100%Z DownloadSamples.resumed
                   cancelled ∅ _)).
  discriminate.
Defined.

End DownloadFacts.

(** * Further properties *)

(** ** Transcription: the successful attempt, and sync *)

Section TranscriptionMore.
Import Transcription.

(** X1: an attempt whose file resolves and whose two whisper steps succeed
    returns normally with the record [finished], carrying the engine name,
    the model and the grouped result; it went through [processing], called
    whisper once with the caller's [force], scheduled one sync last, and
    left the identity columns and [syncedAt] alone. *)
Theorem process_success_finishes cfg whisper clock audios videos force x fp m raw res :
  state x ≠ processing →
  resolveFilePath cfg audios videos x = inl fp → fp ≠ "" →
  transcribe whisper fp force extra_args = inl (m, raw) →
  groupTranscription whisper raw = inl res →
  let out := process cfg whisper clock audios videos force (start x) in
  out.2 = inl tt
  ∧ state (this out.1) = finished
  ∧ engine (this out.1) = Some "whisper"
  ∧ model (this out.1) = m
  ∧ result (this out.1) = Some res
  ∧ (id (this out.1), targetId (this out.1), targetType (this out.1),
     targetMd5 (this out.1), syncedAt (this out.1))
    = (id x, targetId x, targetType x, targetMd5 x, syncedAt x)
  ∧ transitions (effects out.1) = [(state x, processing); (processing, finished)]
  ∧ calls_whisper (effects out.1) = [force]
  ∧ last (effects out.1) = Some SyncScheduled.
Proof.
  intros Hst Hfp Hne Hw Hg.
  pose proof (process_cases cfg whisper clock audios videos force (start x)) as Hc.
  simpl in Hc. rewrite Hfp, Hw, Hg in Hc.
  destruct (decide (state x = processing)); [done|].
  assert (truthy fp = true) as Ht by (unfold truthy; by case_decide).
  rewrite Ht in Hc. simpl. rewrite Hc. simpl. repeat split.
Qed.

Lemma process_success_finishes_witness :
  state (this (process Samples.cfg0 Samples.whisper_ok Samples.clock0 Samples.audios0 ∅
                 false (start (Samples.transcription_of pending "id-talk"))).1)
  = finished.
Proof.
  refine (proj1 (proj2 (process_success_finishes Samples.cfg0 Samples.whisper_ok
            Samples.clock0 Samples.audios0 ∅ false
            (Samples.transcription_of pending "id-talk") "/lib/u1/audios/abc123.mp3"
            (Some "base") (JArr [JStr "hello"]) (JArr [JStr "hello"]) _ _ _ _ _))).
  - discriminate.
  - vm_compute. reflexivity.
  - discriminate.
  - reflexivity.
  - reflexivity.
Defined.

Ltac run_sync :=
  unfold sync, mbind, M_bind, bind, mret, M_ret, ret, get, await, throw,
    update, emit, modify, now; simpl.

(** X2: [sync] contacts the remote API only for a [finished] record.  For
    any other state it returns at once and changes nothing.  For a
    [finished] record it sends the record once; when the API answers,
    [syncedAt] becomes the time read then and nothing else of the
    transcript changes; when the API rejects, the rejection is raised and the
    record is as before. *)
Theorem sync_only_when_finished webApi clock (r : Run t SyncEffect) :
  let out := sync webApi clock r in
  (state (this r) ≠ finished → out = (r, inl tt))
  ∧ (state (this r) = finished →
     calls_api (effects out.1) = calls_api (effects r) ++ [this r]
     ∧ match syncTranscription webApi (this r) with
       | inl _ =>
           out.2 = inl tt
           ∧ syncedAt (this out.1) = Some (clock (ticks r))
           ∧ set_syncedAt (clock (ticks r)) (this r)
             = setUpdatedAt (updatedAt (this r)) (this out.1)
       | inr err => out.2 = inr err ∧ this out.1 = this r
       end).
Proof.
  destruct r as [x es n]. run_sync. split.
  - intros Hst. by rewrite decide_True.
  - intros Hst. rewrite decide_False by (intros H; by apply H).
    destruct (syncTranscription webApi x) as [[]|err]; simpl.
    + unfold calls_api. rewrite !omap_app. simpl. rewrite app_nil_r. done.
    + unfold calls_api. rewrite !omap_app. simpl. done.
Qed.

Lemma sync_only_when_finished_witness :
  sync SyncSamples.acknowledges Samples.clock0
    (start (Samples.transcription_of pending "id-talk"))
  = (start (Samples.transcription_of pending "id-talk"), inl tt)
  ∧ syncedAt (this (sync SyncSamples.acknowledges Samples.clock0
                      (start SyncSamples.done_talk)).1) = Some 1000%Z.
Proof.
  split.
  - apply (proj1 (sync_only_when_finished SyncSamples.acknowledges Samples.clock0
                    (start (Samples.transcription_of pending "id-talk")))).
    discriminate.
  - apply (proj2 (sync_only_when_finished SyncSamples.acknowledges Samples.clock0
                    (start SyncSamples.done_talk)) eq_refl).
Defined.

(** X3: right after a successful [sync] the record reads as synced exactly
    when the save that stored [syncedAt] stamped an [updatedAt] that is not
    later than the [syncedAt] it stored: the two are separate readings of the
    clock, and a clock that moved in between leaves the record stale. *)
Theorem isSynced_after_sync webApi clock (r : Run t SyncEffect) :
  state (this r) = finished →
  syncTranscription webApi (this r) = inl tt →
  isSynced (this (sync webApi clock r).1)
  = bool_decide (clock (Datatypes.S (ticks r)) ≤ clock (ticks r))%Z.
Proof.
  intros Hst Hok. destruct r as [x es n]. run_sync. simpl in *.
  rewrite decide_False by (intros H; by apply H). rewrite Hok. reflexivity.
Qed.

Lemma isSynced_after_sync_witness :
  isSynced (this (sync SyncSamples.acknowledges Samples.clock0
                    (start SyncSamples.done_talk)).1) = false.
Proof.
  rewrite (isSynced_after_sync SyncSamples.acknowledges Samples.clock0
             (start SyncSamples.done_talk) eq_refl eq_refl).
  reflexivity.
Defined.

End TranscriptionMore.

(** ** Ingestion: how it ends and what it keeps *)

Section IngestMore.
Import Library.

(** Every result of the two [buildFromLocalFile] is one of three endings. *)
Lemma buildFromLocalFile_endings env fuel :
  ∀ filePath params w w' out,
    Audio_buildFromLocalFile env fuel filePath params w = Some (w', out)
    ∨ Video_buildFromLocalFile env fuel filePath params w = Some (w', out) →
    refused w w' out
    ∨ ∃ bytes, fs w !! filePath = Some bytes
               ∧ (saved_as_audio env filePath params bytes w w' out
                  ∨ saved_as_video env filePath params bytes w w' out).
Proof.
  induction fuel as [|fuel IH]; intros filePath params w w' out [Hrun|Hrun];
    [done|done| |]; simpl in Hrun.
  - destruct (fs w !! filePath) as [bytes|] eqn:Hfile.
    2:{ injection Hrun as <- <-. left. split; eauto. }
    case_decide as Hv; [rewrite <- Hfile; apply (IH filePath params w w' out); by right|].
    case_decide as Ha; [injection Hrun as <- <-; left; split; eauto|].
    case_decide as Hsame; [injection Hrun as <- <-; left; split; eauto|].
    right. exists bytes. split; [done|]. left.
    unfold saved_as_audio, destFile, new_audio.
    split; [exact Ha|].
    split; [done|]. split; [done|].
    destruct (Audio_save _ _ _) as [w2 [row|err]]; by injection Hrun as <- <-.
  - destruct (fs w !! filePath) as [bytes|] eqn:Hfile.
    2:{ injection Hrun as <- <-. left. split; eauto. }
    case_decide as Ha; [rewrite <- Hfile; apply (IH filePath params w w' out); by left|].
    case_decide as Hv; [injection Hrun as <- <-; left; split; eauto|].
    case_decide as Hsame; [injection Hrun as <- <-; left; split; eauto|].
    right. exists bytes. split; [done|]. right.
    unfold saved_as_video, destFile, new_video.
    split; [exact Hv|].
    split; [done|]. split; [done|].
    destruct (Video_save _ _ _) as [w2 [row|err]]; by injection Hrun as <- <-.
Qed.

(** What a save does to the world. *)
Lemma Audio_save_endings env record w w2 out :
  Audio_save env record w = (w2, out) →
  (∃ column, out = inr (UniqueConstraintError column) ∧ w2 = w)
  ∨ (∃ row, out = inl row
            ∧ row = setUpdatedAt (time w)
                      (Audio.setupDefaultAttributes (cfg env) (ffmpeg env) (uuid env) record)
            ∧ audios w !! Audio.id row = None
            ∧ (∀ k a, audios w !! k = Some a → Audio.md5 a ≠ Audio.md5 row)
            ∧ w2 = schedule [TranscribeAudio (Audio.id row); SyncAudio (Audio.id row);
                             Notify "Audio" (Audio.id row) "create"]
                     (with_audios (<[Audio.id row := row]> (audios w)) w)).
Proof.
  unfold Audio_save. case_decide as Hid; [intros [= <- <-]; left; eauto|].
  case_decide as Hmd5; [intros [= <- <-]; left; eauto|].
  intros [= <- <-]. right. eexists. split; [done|]. split; [done|].
  split; [|split; [|done]].
  - simpl. destruct (audios w !! _) eqn:E; [|done]. exfalso. apply Hid. eauto.
  - intros k a Hk Heq. apply Hmd5. exists k, a. split; [done|]. by rewrite Heq.
Qed.

Lemma Video_save_endings env record w w2 out :
  Video_save env record w = (w2, out) →
  (∃ column, out = inr (UniqueConstraintError column) ∧ w2 = w)
  ∨ (∃ row, out = inl row
            ∧ row = setUpdatedAt (time w)
                      (Video.setupDefaultAttributes (cfg env) (ffmpeg env) (uuid env) record)
            ∧ videos w !! Video.id row = None
            ∧ (∀ k v, videos w !! k = Some v → Video.md5 v ≠ Video.md5 row)
            ∧ w2 = schedule [TranscribeVideo (Video.id row); SyncVideo (Video.id row);
                             GenerateCover (Video.id row);
                             Notify "Video" (Video.id row) "create"]
                     (with_videos (<[Video.id row := row]> (videos w)) w)).
Proof.
  unfold Video_save. case_decide as Hid; [intros [= <- <-]; left; eauto|].
  case_decide as Hmd5; [intros [= <- <-]; left; eauto|].
  intros [= <- <-]. right. eexists. split; [done|]. split; [done|].
  split; [|split; [|done]].
  - simpl. destruct (videos w !! _) eqn:E; [|done]. exfalso. apply Hid. eauto.
  - intros k a Hk Heq. apply Hmd5. exists k, a. split; [done|]. by rewrite Heq.
Qed.

(** X4: an ingestion that ends in an error of any kind has added no row to
    any table and started nothing, and the file it was given is as before. *)
Theorem ingest_error_changes_no_table env fuel filePath params w w' err :
  Audio_buildFromLocalFile env fuel filePath params w = Some (w', inr err)
  ∨ Video_buildFromLocalFile env fuel filePath params w = Some (w', inr err) →
  audios w' = audios w ∧ videos w' = videos w ∧ recordings w' = recordings w
  ∧ transcriptions w' = transcriptions w ∧ scheduled w' = scheduled w
  ∧ fs w' !! filePath = fs w !! filePath.
Proof.
  intros Hrun. apply buildFromLocalFile_endings in Hrun
    as [[-> _]|(bytes & Hfile & [(_ & _ & Hne & Hsave)|(_ & _ & Hne & Hsave)])]; [done| |].
  - destruct (Audio_save _ _ _) as [w2 [row|e]] eqn:Hs; destruct Hsave as [-> Hout];
      [discriminate|].
    apply Audio_save_endings in Hs as [(column & _ & ->)|(row & ? & _)]; [|discriminate].
    simpl. repeat split.
    rewrite lookup_delete_ne by done. by rewrite lookup_insert_ne.
  - destruct (Video_save _ _ _) as [w2 [row|e]] eqn:Hs; destruct Hsave as [-> Hout];
      [discriminate|].
    apply Video_save_endings in Hs as [(column & _ & ->)|(row & ? & _)]; [|discriminate].
    simpl. repeat split.
    rewrite lookup_delete_ne by done. by rewrite lookup_insert_ne.
Qed.

Lemma ingest_error_changes_no_table_witness :
  ∃ w' err,
    Audio_buildFromLocalFile LibrarySamples.env0 1 "/tmp/talk.mp3" LibrarySamples.no_params
      LibrarySamples.library_with_talk = Some (w', inr err)
    ∧ audios w' = audios LibrarySamples.library_with_talk
    ∧ fs w' !! "/tmp/talk.mp3" = Some "ID3-talk".
Proof.
  destruct (Audio_buildFromLocalFile LibrarySamples.env0 1 "/tmp/talk.mp3"
              LibrarySamples.no_params LibrarySamples.library_with_talk)
    as [[w' [a|err]]|] eqn:Hrun; try (vm_compute in Hrun; discriminate Hrun).
  exists w', err. split; [reflexivity|].
  pose proof (ingest_error_changes_no_table LibrarySamples.env0 1 "/tmp/talk.mp3"
                LibrarySamples.no_params LibrarySamples.library_with_talk w' err
                (or_introl Hrun)) as (Ha & _ & _ & _ & _ & Hf).
  split; [exact Ha|]. rewrite Hf. by vm_compute.
Defined.

Lemma Audio_setup_keeps cfg ffmpeg uuid audio :
  let x := Audio.setupDefaultAttributes cfg ffmpeg uuid audio in
  (Audio.recordingsCount x, Audio.recordingsDuration x, Audio.syncedAt x, Audio.uploadedAt x,
   Audio.source x, Audio.name x)
  = (Audio.recordingsCount audio, Audio.recordingsDuration audio, Audio.syncedAt audio,
     Audio.uploadedAt audio, Audio.source audio, Audio.name audio).
Proof. unfold Audio.setupDefaultAttributes. by destruct (generateMetadata ffmpeg _). Qed.

Lemma Video_setup_keeps cfg ffmpeg uuid video :
  let x := Video.setupDefaultAttributes cfg ffmpeg uuid video in
  (Video.recordingsCount x, Video.recordingsDuration x, Video.syncedAt x, Video.uploadedAt x,
   Video.source x, Video.name x)
  = (Video.recordingsCount video, Video.recordingsDuration video, Video.syncedAt video,
     Video.uploadedAt video, Video.source video, Video.name video).
Proof. unfold Video.setupDefaultAttributes. by destruct (generateMetadata ffmpeg _). Qed.

(** X5: an ingestion that succeeds has changed exactly this: one row, under
    a key that was free, in the table of the asset's kind; the bytes of the
    given file at the library path of their hash; the three (for a Video,
    four) follow-up tasks of the [@AfterCreate] hooks.  The row starts with
    both counters at zero, neither synced nor uploaded. *)
Theorem ingest_success_adds_one_row env fuel filePath params w w' asset bytes :
  fs w !! filePath = Some bytes →
  Audio_buildFromLocalFile env fuel filePath params w = Some (w', inl asset)
  ∨ Video_buildFromLocalFile env fuel filePath params w = Some (w', inl asset) →
  match asset with
  | AudioRow a =>
      audios w !! Audio.id a = None
      ∧ audios w' = <[Audio.id a := a]> (audios w) ∧ videos w' = videos w
      ∧ fs w' = <[destFile env "audios" filePath bytes := bytes]> (fs w)
      ∧ scheduled w' = scheduled w ++ [TranscribeAudio (Audio.id a); SyncAudio (Audio.id a);
                                      Notify "Audio" (Audio.id a) "create"]
      ∧ (Audio.recordingsCount a, Audio.recordingsDuration a, Audio.syncedAt a,
         Audio.uploadedAt a) = (0%Z, 0%Z, None, None)
  | VideoRow v =>
      videos w !! Video.id v = None
      ∧ videos w' = <[Video.id v := v]> (videos w) ∧ audios w' = audios w
      ∧ fs w' = <[destFile env "videos" filePath bytes := bytes]> (fs w)
      ∧ scheduled w' = scheduled w ++ [TranscribeVideo (Video.id v); SyncVideo (Video.id v);
                                      GenerateCover (Video.id v);
                                      Notify "Video" (Video.id v) "create"]
      ∧ (Video.recordingsCount v, Video.recordingsDuration v, Video.syncedAt v,
         Video.uploadedAt v) = (0%Z, 0%Z, None, None)
  end.
Proof.
  intros Hfile Hrun. apply buildFromLocalFile_endings in Hrun
    as [[_ [m [=]]]|(bytes' & Hfile' & [(_ & _ & Hne & Hsave)|(_ & _ & Hne & Hsave)])].
  - assert (bytes' = bytes) as -> by congruence.
    destruct (Audio_save _ _ _) as [w2 [row|e]] eqn:Hs; destruct Hsave as [-> Hout];
      [|discriminate]. injection Hout as ->.
    apply Audio_save_endings in Hs as [(column & [=] & _)|(row' & [= <-] & Hrow & Hfree & _ & ->)].
    pose proof (Audio_setup_keeps (cfg env) (ffmpeg env) (uuid env)
                  (new_audio env filePath params bytes)) as Hkeep.
    simpl in Hkeep. injection Hkeep as Hc Hd Hsy Hup _ _.
    subst row. simpl in *. rewrite Hc, Hd, Hsy, Hup. done.
  - assert (bytes' = bytes) as -> by congruence.
    destruct (Video_save _ _ _) as [w2 [row|e]] eqn:Hs; destruct Hsave as [-> Hout];
      [|discriminate]. injection Hout as ->.
    apply Video_save_endings in Hs as [(column & [=] & _)|(row' & [= <-] & Hrow & Hfree & _ & ->)].
    pose proof (Video_setup_keeps (cfg env) (ffmpeg env) (uuid env)
                  (new_video env filePath params bytes)) as Hkeep.
    simpl in Hkeep. injection Hkeep as Hc Hd Hsy Hup _ _.
    subst row. simpl in *. rewrite Hc, Hd, Hsy, Hup. done.
Qed.

Lemma ingest_success_adds_one_row_witness :
  ∃ w' a,
    Audio_buildFromLocalFile LibrarySamples.env0 1 "/tmp/talk.mp3" LibrarySamples.no_params
      LibrarySamples.empty_library = Some (w', inl (AudioRow a))
    ∧ fs w' = <[ "/lib/u1/audios/abc123.mp3" := "ID3-talk" ]> (fs LibrarySamples.empty_library)
    ∧ videos w' = ∅.
Proof.
  destruct (Audio_buildFromLocalFile LibrarySamples.env0 1 "/tmp/talk.mp3"
              LibrarySamples.no_params LibrarySamples.empty_library)
    as [[w' [[a|v]|e]]|] eqn:Hrun; try (vm_compute in Hrun; discriminate Hrun).
  exists w', a. split; [reflexivity|].
  pose proof (ingest_success_adds_one_row LibrarySamples.env0 1 "/tmp/talk.mp3"
                LibrarySamples.no_params LibrarySamples.empty_library w' (AudioRow a)
                "ID3-talk" eq_refl (or_introl Hrun)) as (_ & _ & Hv & Hfs & _).
  split; [exact Hfs | exact Hv].
Defined.

(** X6: the two tables keep their shape through any ingestion, whether it
    succeeds or not: every row sits under its own id and no two rows of a
    table have the same [md5]. *)
Theorem ingest_keeps_tables_sound env fuel filePath params w w' out :
  well_keyed w → md5_unique w →
  Audio_buildFromLocalFile env fuel filePath params w = Some (w', out)
  ∨ Video_buildFromLocalFile env fuel filePath params w = Some (w', out) →
  well_keyed w' ∧ md5_unique w'.
Proof.
  intros [Hka Hkv] [Hua Huv] Hrun.
  destruct out as [asset|err].
  2:{ apply ingest_error_changes_no_table in Hrun as (Ha & Hv & _).
      unfold well_keyed, md5_unique. rewrite Ha, Hv. done. }
  pose proof Hrun as Hend.
  apply buildFromLocalFile_endings in Hend
    as [[_ [m [=]]]|(bytes & Hfile & [(_ & _ & Hne & Hsave)|(_ & _ & Hne & Hsave)])].
  - destruct (Audio_save _ _ _) as [w2 [row|e]] eqn:Hs; destruct Hsave as [-> Hout];
      [|discriminate]. injection Hout as ->.
    apply Audio_save_endings in Hs
      as [(column & [=] & _)|(row' & [= <-] & _ & Hfree & Hfresh & ->)].
    simpl in *. unfold well_keyed, md5_unique; simpl. repeat split; try done.
    + intros k a. rewrite lookup_insert. case_decide; [by intros [= <-]|]. apply Hka.
    + intros k1 k2 a1 a2. rewrite !lookup_insert.
      repeat case_decide; subst; try congruence.
      * intros [= <-] H2 Heq. exfalso. by apply (Hfresh k2 a2).
      * intros H1 [= <-] Heq. exfalso. by apply (Hfresh k1 a1).
      * apply Hua.
  - destruct (Video_save _ _ _) as [w2 [row|e]] eqn:Hs; destruct Hsave as [-> Hout];
      [|discriminate]. injection Hout as ->.
    apply Video_save_endings in Hs
      as [(column & [=] & _)|(row' & [= <-] & _ & Hfree & Hfresh & ->)].
    simpl in *. unfold well_keyed, md5_unique; simpl. repeat split; try done.
    + intros k a. rewrite lookup_insert. case_decide; [by intros [= <-]|]. apply Hkv.
    + intros k1 k2 a1 a2. rewrite !lookup_insert.
      repeat case_decide; subst; try congruence.
      * intros [= <-] H2 Heq. exfalso. by apply (Hfresh k2 a2).
      * intros H1 [= <-] Heq. exfalso. by apply (Hfresh k1 a1).
      * apply Huv.
Qed.

(** X7: the kind of the asset depends on the extension of the file, not on
    which of the two functions was called: an Audio is only ever created for
    a format of the audio table that is not in the video table, a Video for a
    format of the video table that is not in the audio table. *)
Theorem ingest_kind_follows_extension env fuel filePath params w w' asset :
  Audio_buildFromLocalFile env fuel filePath params w = Some (w', inl asset)
  ∨ Video_buildFromLocalFile env fuel filePath params w = Some (w', inl asset) →
  match asset with
  | AudioRow _ => format_of (path.extname filePath) ∈ AudioFormats env
                  ∧ (format_of (path.extname filePath) ∉ VideoFormats env)
  | VideoRow _ => format_of (path.extname filePath) ∈ VideoFormats env
                  ∧ (format_of (path.extname filePath) ∉ AudioFormats env)
  end.
Proof.
  intros Hrun. apply buildFromLocalFile_endings in Hrun
    as [[_ [m [=]]]|(bytes & Hfile & [(Hin & Hnot & _ & Hsave)|(Hin & Hnot & _ & Hsave)])].
  - destruct (Audio_save _ _ _) as [w2 [row|e]]; destruct Hsave as [_ Hout];
      [|discriminate]. by injection Hout as ->.
  - destruct (Video_save _ _ _) as [w2 [row|e]]; destruct Hsave as [_ Hout];
      [|discriminate]. by injection Hout as ->.
Qed.

Lemma ingest_kind_follows_extension_witness :
  format_of (path.extname "/tmp/talk.mp3") ∈ AudioFormats LibrarySamples.env0
  ∧ (format_of (path.extname "/tmp/talk.mp3") ∉ VideoFormats LibrarySamples.env0).
Proof.
  destruct (Video_buildFromLocalFile LibrarySamples.env0 2 "/tmp/talk.mp3"
              LibrarySamples.no_params LibrarySamples.empty_library)
    as [[w' [[a|v]|e]]|] eqn:Hrun; try (vm_compute in Hrun; discriminate Hrun).
  exact (ingest_kind_follows_extension LibrarySamples.env0 2 "/tmp/talk.mp3"
           LibrarySamples.no_params LibrarySamples.empty_library w' (AudioRow a)
           (or_intror Hrun)).
Defined.

Lemma ingest_keeps_tables_sound_witness :
  ∃ w' out,
    Audio_buildFromLocalFile LibrarySamples.env0 1 "/tmp/talk.mp3" LibrarySamples.no_params
      LibrarySamples.empty_library = Some (w', out)
    ∧ well_keyed w' ∧ md5_unique w'.
Proof.
  destruct (Audio_buildFromLocalFile LibrarySamples.env0 1 "/tmp/talk.mp3"
              LibrarySamples.no_params LibrarySamples.empty_library)
    as [[w' out]|] eqn:Hrun; [|vm_compute in Hrun; discriminate Hrun].
  exists w', out. split; [reflexivity|].
  apply (ingest_keeps_tables_sound LibrarySamples.env0 1 "/tmp/talk.mp3"
           LibrarySamples.no_params LibrarySamples.empty_library w' out).
  - split; intros k x Hk; simpl in Hk; by rewrite lookup_empty in Hk.
  - split; intros k1 k2 x1 x2 Hk; simpl in Hk; by rewrite lookup_empty in Hk.
  - by left.
Defined.

(** More fuel does not change a result. *)
Lemma buildFromLocalFile_fuel_mono env fuel :
  ∀ filePath params w res,
    (Audio_buildFromLocalFile env fuel filePath params w = Some res →
     Audio_buildFromLocalFile env (Datatypes.S fuel) filePath params w = Some res)
    ∧ (Video_buildFromLocalFile env fuel filePath params w = Some res →
       Video_buildFromLocalFile env (Datatypes.S fuel) filePath params w = Some res).
Proof.
  induction fuel as [|fuel IH]; intros filePath params w res; [done|].
  split; intros Hrun.
  - simpl in Hrun. cbn [Audio_buildFromLocalFile].
    destruct (fs w !! filePath) as [bytes|]; [|done].
    case_decide; [by apply IH|done].
  - simpl in Hrun. cbn [Video_buildFromLocalFile].
    destruct (fs w !! filePath) as [bytes|]; [|done].
    case_decide; [by apply IH|done].
Qed.

(** X8: unless the format of the file is listed in both tables, each of the
    two functions returns after at most one hand-over to the other: two
    units of fuel give a result, and any larger amount gives the same one. *)
Theorem ingest_returns_unless_format_in_both env filePath params w :
  ¬ (format_of (path.extname filePath) ∈ AudioFormats env
     ∧ format_of (path.extname filePath) ∈ VideoFormats env) →
  (∃ res, ∀ fuel,
      Audio_buildFromLocalFile env (Datatypes.S (Datatypes.S fuel)) filePath params w
      = Some res)
  ∧ (∃ res, ∀ fuel,
      Video_buildFromLocalFile env (Datatypes.S (Datatypes.S fuel)) filePath params w
      = Some res).
Proof.
  intros Hnot.
  assert (∀ n res,
            (Audio_buildFromLocalFile env 2 filePath params w = Some res →
             Audio_buildFromLocalFile env (Datatypes.S (Datatypes.S n)) filePath params w
             = Some res)
            ∧ (Video_buildFromLocalFile env 2 filePath params w = Some res →
               Video_buildFromLocalFile env (Datatypes.S (Datatypes.S n)) filePath params w
               = Some res)) as Hmore.
  { induction n as [|n IHn]; intros res; [done|].
    split; intros H2.
    - by apply buildFromLocalFile_fuel_mono, IHn.
    - by apply buildFromLocalFile_fuel_mono, IHn. }
  assert (is_Some (Audio_buildFromLocalFile env 2 filePath params w)
          ∧ is_Some (Video_buildFromLocalFile env 2 filePath params w)) as [[ra Ha] [rv Hv]].
  { cbn [Audio_buildFromLocalFile Video_buildFromLocalFile].
    destruct (fs w !! filePath) as [bytes|]; [|split; eauto].
    destruct (decide (format_of (path.extname filePath) ∈ VideoFormats env)) as [Hv|Hv];
      destruct (decide (format_of (path.extname filePath) ∈ AudioFormats env)) as [Ha|Ha].
    - destruct Hnot; done.
    - split; repeat case_decide; try done; eauto;
        try destruct (Video_save _ _ _) as [? [?|?]]; eauto.
    - split; repeat case_decide; try done; eauto;
        try destruct (Audio_save _ _ _) as [? [?|?]]; eauto.
    - split; repeat case_decide; try done; eauto. }
  split; [exists ra|exists rv]; intros fuel; by apply Hmore.
Qed.

Lemma ingest_returns_unless_format_in_both_witness :
  ∃ res, ∀ fuel,
    Video_buildFromLocalFile LibrarySamples.env0 (Datatypes.S (Datatypes.S fuel))
      "/tmp/talk.mp3" LibrarySamples.no_params LibrarySamples.empty_library = Some res.
Proof.
  refine (proj2 (ingest_returns_unless_format_in_both LibrarySamples.env0 "/tmp/talk.mp3"
                   LibrarySamples.no_params LibrarySamples.empty_library _)).
  intros [_ Hv]. assert ("mp3" ∈ ["mp4"]) as H by exact Hv.
  apply list_elem_of_singleton in H. discriminate H.
Defined.

(** X9: for a readable file whose format is listed in both tables the two
    functions hand the file to each other for ever: no amount of fuel yields
    a result, neither an asset nor an error. *)
Theorem ingest_never_returns_when_format_in_both env filePath params w fuel :
  is_Some (fs w !! filePath) →
  format_of (path.extname filePath) ∈ AudioFormats env →
  format_of (path.extname filePath) ∈ VideoFormats env →
  Audio_buildFromLocalFile env fuel filePath params w = None
  ∧ Video_buildFromLocalFile env fuel filePath params w = None.
Proof.
  intros [bytes Hfile] Ha Hv. induction fuel as [|fuel [IHa IHv]]; [done|].
  split; simpl; rewrite Hfile.
  - by rewrite decide_True.
  - by rewrite decide_True.
Qed.

Lemma ingest_never_returns_when_format_in_both_witness :
  Audio_buildFromLocalFile OverlapSamples.env_overlap 1000 "/tmp/clip.ogg"
    LibrarySamples.no_params OverlapSamples.with_clip = None.
Proof.
  refine (proj1 (ingest_never_returns_when_format_in_both OverlapSamples.env_overlap
                   "/tmp/clip.ogg" LibrarySamples.no_params OverlapSamples.with_clip
                   1000 _ _ _)).
  - by eexists.
  - vm_compute. apply list_elem_of_further, list_elem_of_here.
  - vm_compute. apply list_elem_of_further, list_elem_of_here.
Defined.

Lemma string_app_assoc (a b c : string) : (a +:+ b) +:+ c = a +:+ (b +:+ c).
Proof.
  induction a as [|x a IH]; [done|].
  change (String x ((a +:+ b) +:+ c) = String x (a +:+ (b +:+ c))). by rewrite IH.
Qed.

Lemma string_app_nonempty_r (a b : string) : b ≠ "" → a +:+ b ≠ "".
Proof. destruct a; [done|discriminate]. Qed.

(** Joining in two steps, as the source does for the destination, gives the
    path that joining in one step gives, as the [filePath] getter does. *)
Lemma join_join (a b c : string) :
  b ≠ "" → path.join [path.join [a; b]; c] = path.join [a; b; c].
Proof.
  intros Hb. unfold path.join.
  rewrite !filter_cons, !filter_nil.
  destruct (decide (b ≠ "")) as [_|?]; [|done].
  destruct (decide (a ≠ "")) as [Ha|Ha]; destruct (decide (c ≠ "")) as [Hc|Hc]; simpl;
    case_decide as Hin; try reflexivity.
  all: try (exfalso; revert Hin; by apply string_app_nonempty_r).
  all: try done.
  simpl. by rewrite string_app_assoc.
Qed.

(** X10: when the file has an extension and the probe does not itself report
    an [extname], the [filePath] of the created row is the library path the
    bytes were copied to, and the bytes are there. *)
Theorem created_row_points_at_its_copy env fuel filePath params w w' asset bytes :
  fs w !! filePath = Some bytes →
  path.extname filePath ≠ "" →
  (∀ file fileMetadata,
     generateMetadata (ffmpeg env) file = inl fileMetadata → fileMetadata !! "extname" = None) →
  Audio_buildFromLocalFile env fuel filePath params w = Some (w', inl asset)
  ∨ Video_buildFromLocalFile env fuel filePath params w = Some (w', inl asset) →
  match asset with
  | AudioRow a =>
      Audio.filePath (cfg env) a = destFile env "audios" filePath bytes
      ∧ fs w' !! Audio.filePath (cfg env) a = Some bytes
  | VideoRow v =>
      Video.filePath (cfg env) v = destFile env "videos" filePath bytes
      ∧ fs w' !! Video.filePath (cfg env) v = Some bytes
  end.
Proof.
  intros Hfile Hext Hprobe Hrun.
  pose proof (ingest_success_adds_one_row env fuel filePath params w w' asset bytes
                Hfile Hrun) as Hframe.
  assert (truthy (path.extname filePath) = true) as Ht by (unfold truthy; by case_decide).
  apply buildFromLocalFile_endings in Hrun
    as [[_ [m [=]]]|(bytes' & Hfile' & [(_ & _ & Hne & Hsave)|(_ & _ & Hne & Hsave)])].
  - assert (bytes' = bytes) as -> by congruence.
    destruct (Audio_save _ _ _) as [w2 [row|e]] eqn:Hs; destruct Hsave as [-> Hout];
      [|discriminate]. injection Hout as ->.
    apply Audio_save_endings in Hs as [(column & [=] & _)|(row' & [= <-] & Hrow & _)].
    destruct Hframe as (_ & _ & _ & Hfs & _).
    assert (Audio.filePath (cfg env) row = destFile env "audios" filePath bytes) as Hpath.
    { subst row. unfold destFile. rewrite join_join by done.
      unfold Audio.filePath, Audio.extname, Audio.setupDefaultAttributes. simpl.
      destruct (generateMetadata (ffmpeg env) _) as [md|] eqn:Hmd; simpl.
      - rewrite lookup_union_r by (by eapply Hprobe). rewrite lookup_singleton_eq. simpl.
        unfold or_else. by rewrite Ht.
      - rewrite lookup_singleton_eq. simpl. unfold or_else. by rewrite Ht. }
    split; [done|]. rewrite Hpath, Hfs. apply lookup_insert_eq.
  - assert (bytes' = bytes) as -> by congruence.
    destruct (Video_save _ _ _) as [w2 [row|e]] eqn:Hs; destruct Hsave as [-> Hout];
      [|discriminate]. injection Hout as ->.
    apply Video_save_endings in Hs as [(column & [=] & _)|(row' & [= <-] & Hrow & _)].
    destruct Hframe as (_ & _ & _ & Hfs & _).
    assert (Video.filePath (cfg env) row = destFile env "videos" filePath bytes) as Hpath.
    { subst row. unfold destFile. rewrite join_join by done.
      unfold Video.filePath, Video.extname, Video.setupDefaultAttributes. simpl.
      destruct (generateMetadata (ffmpeg env) _) as [md|] eqn:Hmd; simpl.
      - rewrite lookup_union_r by (by eapply Hprobe). rewrite lookup_singleton_eq. simpl.
        unfold or_else. by rewrite Ht.
      - rewrite lookup_singleton_eq. simpl. unfold or_else. by rewrite Ht. }
    split; [done|]. rewrite Hpath, Hfs. apply lookup_insert_eq.
Qed.

Lemma created_row_points_at_its_copy_witness :
  ∃ w' a,
    Audio_buildFromLocalFile LibrarySamples.env0 1 "/tmp/talk.mp3" LibrarySamples.no_params
      LibrarySamples.empty_library = Some (w', inl (AudioRow a))
    ∧ fs w' !! Audio.filePath Samples.cfg0 a = Some "ID3-talk".
Proof.
  destruct (Audio_buildFromLocalFile LibrarySamples.env0 1 "/tmp/talk.mp3"
              LibrarySamples.no_params LibrarySamples.empty_library)
    as [[w' [[a|v]|e]]|] eqn:Hrun; try (vm_compute in Hrun; discriminate Hrun).
  exists w', a. split; [reflexivity|].
  refine (proj2 (created_row_points_at_its_copy LibrarySamples.env0 1 "/tmp/talk.mp3"
                   LibrarySamples.no_params LibrarySamples.empty_library w' (AudioRow a)
                   "ID3-talk" eq_refl _ _ (or_introl Hrun))).
  - vm_compute. discriminate.
  - intros file md [= <-]. by vm_compute.
Defined.

(** X11: what [transcribe] starts.  For an asset that has no transcription
    yet (and whose content is not transcribed under another id) it inserts
    one [pending] row and [process()] is called on it twice without [force]:
    once by [transcribe] itself and once by the row's [@AfterCreate] hook.
    For an asset whose transcription is [processing] it calls nothing and
    changes nothing. *)
Theorem transcribe_starts fresh audio w :
  (∀ row, row ∈ transcriptions w →
          ¬ (Transcription.targetId row = Audio.id audio
             ∧ Transcription.targetType row = "Audio")) →
  (∀ row, row ∈ transcriptions w →
          Transcription.id row ≠ fresh ∧ Transcription.targetMd5 row ≠ Audio.md5 audio) →
  let row := Transcription.mk fresh (Audio.id audio) "Audio" (Audio.md5 audio)
               Transcription.pending None None None None (time w) in
  Audio_transcribe fresh audio w
  = (with_transcriptions (transcriptions w ++ [row]) w,
     inl [ {| callee := row; force := false |}; {| callee := row; force := false |} ])
  ∧ ∀ busy,
      Transcription.state busy = Transcription.processing →
      Transcription.targetId busy = Audio.id audio →
      Transcription.targetType busy = "Audio" →
      Audio_transcribe fresh audio (with_transcriptions (busy :: transcriptions w) w)
      = (with_transcriptions (busy :: transcriptions w) w, inl []).
Proof.
  intros Hnone Hfree. split.
  - unfold Audio_transcribe, findOrCreate.
    destruct (List.find _ (transcriptions w)) as [found|] eqn:Hfind.
    { apply find_some in Hfind as [Hin Hp]. apply bool_decide_eq_true in Hp.
      destruct (Hnone found); [by apply list_elem_of_In|done]. }
    rewrite decide_False; [done|].
    intros Hex. apply Exists_exists in Hex as (r & Hin & Hr).
    destruct (Hfree r Hin) as [H1 H2]. by destruct Hr.
  - intros busy Hst Hid Hty. unfold Audio_transcribe, findOrCreate. simpl.
    rewrite bool_decide_eq_true_2 by done.
    unfold transcribe_then. by rewrite Hst.
Qed.

Lemma transcribe_starts_witness :
  Audio_transcribe "t9" Samples.talk LibrarySamples.empty_library
  = (with_transcriptions
       [Transcription.mk "t9" "id-talk" "Audio" "abc123" Transcription.pending
          None None None None 1000] LibrarySamples.empty_library,
     inl [ {| callee := Transcription.mk "t9" "id-talk" "Audio" "abc123"
                          Transcription.pending None None None None 1000;
              force := false |};
           {| callee := Transcription.mk "t9" "id-talk" "Audio" "abc123"
                          Transcription.pending None None None None 1000;
              force := false |} ]).
Proof.
  refine (proj1 (transcribe_starts "t9" Samples.talk LibrarySamples.empty_library _ _)).
  - intros row Hin. by apply elem_of_nil in Hin.
  - intros row Hin. by apply elem_of_nil in Hin.
Defined.

End IngestMore.

(** ** Recording: sync, and the counters *)

Section RecordingMore.
Import Library.

Ltac run_recording :=
  unfold Recording.sync, Recording.upload, mbind, M_bind, bind, mret, M_ret, ret, get,
    await, throw, try_catch, update, emit, modify, now; simpl.

(** X12: [Recording.sync] waits for the upload it needs.  For a recording
    that is uploaded already it puts no blob; for one that is not, it puts
    the blob first, and when the storage refuses or does not answer, the
    error is raised, the remote API is not called and the recording is as
    before; when both the storage and the API accept, the API received the
    record with its [uploadedAt], and both timestamps are set. *)
Theorem recording_sync_awaits_upload cfg storage webApi clock
    (r : Run Recording.t Recording.Effect) :
  let out := Recording.sync cfg storage webApi clock r in
  (Recording.isUploaded (this r) = true →
   Recording.puts (effects out.1) = Recording.puts (effects r)
   ∧ Recording.syncs (effects out.1) = Recording.syncs (effects r) ++ [this r])
  ∧ (Recording.isUploaded (this r) = false →
     match put storage (Recording.md5 (this r)) (Recording.filePath cfg (this r)) with
     | inr err =>
         out.2 = inr err ∧ this out.1 = this r
         ∧ Recording.syncs (effects out.1) = Recording.syncs (effects r)
     | inl res =>
         if success res then
           ∃ sent,
             Recording.syncs (effects out.1) = Recording.syncs (effects r) ++ [sent]
             ∧ Recording.uploadedAt sent = Some (clock (ticks r))
             ∧ (out.2 = inl tt →
                Recording.uploadedAt (this out.1) = Some (clock (ticks r))
                ∧ Recording.syncedAt (this out.1)
                  = Some (clock (Datatypes.S (Datatypes.S (ticks r)))))
         else
           out.2 = inr (Error (data res)) ∧ this out.1 = this r
           ∧ Recording.syncs (effects out.1) = Recording.syncs (effects r)
     end).
Proof.
  destruct r as [x es n]. run_recording. split.
  - intros Hup. rewrite ?Hup. simpl. rewrite ?Hup. simpl.
    unfold Recording.puts, Recording.syncs.
    destruct (Recording.syncRecording webApi x) as [[]|err]; simpl;
      rewrite ?omap_app; simpl; by rewrite ?app_nil_r.
  - intros Hup. rewrite ?Hup. simpl. rewrite ?Hup. simpl.
    destruct (put storage _ _) as [[ok d]|err]; simpl; [destruct ok; simpl|].
    + exists (setUpdatedAt (clock (Datatypes.S n)) (Recording.set_uploadedAt (clock n) x)).
      unfold Recording.syncs.
      match goal with
      | |- context [Recording.syncRecording webApi ?y] =>
          destruct (Recording.syncRecording webApi y) as [[]|err]
      end; simpl;
        rewrite ?omap_app; simpl; rewrite ?app_nil_r; (split; [reflexivity|]);
        split; try done.
    + unfold Recording.syncs. rewrite ?omap_app; simpl. by rewrite ?app_nil_r.
    + unfold Recording.syncs. rewrite ?omap_app; simpl. by rewrite ?app_nil_r.
Qed.

Lemma recording_sync_awaits_upload_witness :
  (Recording.sync Samples.cfg0 StorageSamples.offline ClipSamples.api Samples.clock0
     (start ClipSamples.fresh_clip)).2 = inr (Rejection "ECONNREFUSED")
  ∧ Recording.syncs
      (effects (Recording.sync Samples.cfg0 StorageSamples.offline ClipSamples.api
                  Samples.clock0 (start ClipSamples.fresh_clip)).1) = [].
Proof.
  pose proof (proj2 (recording_sync_awaits_upload Samples.cfg0 StorageSamples.offline
                       ClipSamples.api Samples.clock0 (start ClipSamples.fresh_clip))
                eq_refl) as (Hout & _ & Hsyncs).
  split; [exact Hout | exact Hsyncs].
Defined.

(** X13: creating a recording against an Audio row and destroying it again
    brings the recordings table and both counters of every Audio row back to
    what they were; the videos were never touched. *)
Theorem recording_create_destroy_round_trip cfg recording w w1 row :
  Recording_create recording w = (w1, inl row) →
  let w2 := Recording_destroy cfg row w1 in
  recordings w2 = recordings w
  ∧ videos w2 = videos w
  ∧ ∀ k, (λ a, (Audio.recordingsCount a, Audio.recordingsDuration a)) <$> audios w2 !! k
         = (λ a, (Audio.recordingsCount a, Audio.recordingsDuration a)) <$> audios w !! k.
Proof.
  unfold Recording_create. repeat case_decide; try discriminate.
  intros [= <- <-]. simpl. split; [|split; [done|]].
  - apply delete_insert_id.
    destruct (recordings w !! Recording.id recording) eqn:E; [|done].
    exfalso. eauto.
  - intros k.
    unfold Recording.decreaseResourceCache, Recording.increaseResourceCache. simpl.
    destruct (decide (Recording.targetType recording = "Audio")) as [Ht|Ht].
    2:{ by rewrite decide_True. }
    rewrite decide_False by (by intros ?).
    destruct (audios w !! Recording.targetId recording) as [a|] eqn:Ha.
    + rewrite lookup_insert_eq. rewrite insert_insert_eq.
      destruct (decide (k = Recording.targetId recording)) as [->|Hk].
      * rewrite lookup_insert_eq, Ha. simpl.
        unfold Recording.decrement, Recording.increment. simpl.
        f_equal. f_equal; lia.
      * by rewrite lookup_insert_ne.
    + by rewrite Ha.
Qed.

Lemma recording_create_destroy_round_trip_witness :
  ∃ w1 row,
    Recording_create (RecordingSamples.clip "Audio" "a1") RecordingSamples.studio
    = (w1, inl row)
    ∧ recordings (Recording_destroy Samples.cfg0 row w1) = ∅.
Proof.
  destruct (Recording_create (RecordingSamples.clip "Audio" "a1") RecordingSamples.studio)
    as [w1 [row|e]] eqn:Hrun; [|vm_compute in Hrun; discriminate Hrun].
  exists w1, row. split; [reflexivity|].
  exact (proj1 (recording_create_destroy_round_trip Samples.cfg0 _ _ _ _ Hrun)).
Defined.

Lemma find_after {A} (f : A → bool) (l l' : list A) :
  List.find f l = None → List.find f (l ++ l') = List.find f l'.
Proof.
  induction l as [|x l IH]; simpl; [done|]. destruct (f x); [discriminate|]. apply IH.
Qed.

(** X18: a recording is assessed once.  After an [assess] that returned an
    assessment, any further [assess] of a recording with the same id returns
    that same assessment and contacts neither the token endpoint nor the
    SDK, whatever reference text or file the recording carries by then and
    whatever the service would answer now. *)
Theorem assess_once cfg remote fresh recording st st1 assessment :
  Assessment.assess cfg remote fresh recording st = (st1, inl assessment) →
  ∀ cfg' remote' fresh' recording',
    Recording.id recording' = Recording.id recording →
    Assessment.assess cfg' remote' fresh' recording' st1 = (st1, inl assessment).
Proof.
  unfold Assessment.assess, mbind, M_bind, bind, mret, M_ret, ret, get, await,
    Assessment.emit, modify. simpl.
  intros Hrun cfg' remote' fresh' recording' Hid. rewrite Hid.
  destruct (Assessment.findOne (Recording.id recording) "Recording" st) as [a|] eqn:Hfind.
  - injection Hrun as <- <-. by rewrite Hfind.
  - destruct (Assessment.generateSpeechToken remote) as [[token region]|e];
      [|discriminate]. simpl in Hrun.
    destruct (Assessment.pronunciationAssessment remote _ _ _ _) as [res|e];
      [|discriminate]. simpl in Hrun.
    unfold Assessment.create in Hrun. simpl in Hrun.
    case_decide; [discriminate|]. injection Hrun as <- <-.
    unfold Assessment.findOne in *. simpl.
    rewrite find_after by done. simpl. by rewrite bool_decide_eq_true_2.
Qed.

Lemma assess_once_witness :
  ∃ st1 a,
    Assessment.assess Samples.cfg0 AssessSamples.service "p1" ClipSamples.fresh_clip
      AssessSamples.no_assessments = (st1, inl a)
    ∧ Assessment.assess Samples.cfg0 AssessSamples.service "p2"
        (AssessSamples.reread "another sentence" ClipSamples.fresh_clip) st1
      = (st1, inl a).
Proof.
  destruct (Assessment.assess Samples.cfg0 AssessSamples.service "p1" ClipSamples.fresh_clip
              AssessSamples.no_assessments) as [st1 [a|e]] eqn:Hrun;
    [|vm_compute in Hrun; discriminate Hrun].
  exists st1, a. split; [reflexivity|].
  by apply (assess_once _ _ _ _ _ _ _ Hrun).
Defined.

End RecordingMore.

(** ** Downloader: settled promises, cancelling, tracking *)

Section DownloadMore.
Import Downloader.

Lemma resolve_keeps_settled k v k' v' st :
  promises st !! k = Some (Resolved v) →
  promises (resolve k' v' st) !! k = Some (Resolved v).
Proof.
  intros H. unfold resolve. simpl.
  destruct (decide (k' = k)) as [->|Hne].
  - rewrite list_lookup_alter_eq, H. done.
  - by rewrite list_lookup_alter_ne.
Qed.

Lemma emit_done_keeps_settled k v h s st :
  promises st !! k = Some (Resolved v) →
  promises (emit_done h s st) !! k = Some (Resolved v).
Proof.
  intros H. unfold emit_done. destruct (items st !! h) as [it|]; [|done].
  destruct (isDone it); [done|]. case_decide; [done|].
  apply (foldl_preserves (λ st, promises st !! k = Some (Resolved v))); [|done].
  intros a k' Ha. unfold on_done. destruct (items a !! h); [|done].
  case_decide; by apply resolve_keeps_settled.
Qed.

(** X14: a promise that is resolved keeps its value through every later
    call and event: [resolve] on a settled promise does nothing. *)
Theorem settled_promise_is_final downloads es st k v :
  promises st !! k = Some (Resolved v) →
  promises (run downloads es st) !! k = Some (Resolved v).
Proof.
  unfold run. apply (foldl_preserves (λ st, promises st !! k = Some (Resolved v))).
  intros a e Ha. destruct e as [url sp|name total|h s n b|h s|name| |]; simpl.
  - by apply lookup_app_l_Some.
  - unfold emit_will_download.
    apply (foldl_preserves (λ st, promises st !! k = Some (Resolved v))); [|done].
    by intros.
  - unfold emit_updated. destruct (items a !! h) as [it|]; [|done].
    destruct (isDone it); [done|]. case_decide; [|done].
    apply (foldl_preserves (λ st, promises st !! k = Some (Resolved v))); [|done].
    intros a' k' Ha'. unfold on_updated. destruct (items a' !! h); [|done].
    case_decide; [by apply resolve_keeps_settled|done].
  - by apply emit_done_keeps_settled.
  - unfold cancel. destruct (List.find _ _); [|done].
    case_bool_decide; [|done]. by apply emit_done_keeps_settled.
  - unfold cancelAll.
    apply (foldl_preserves (λ st, promises st !! k = Some (Resolved v))); [|done].
    intros; by apply emit_done_keeps_settled.
  - unfold clear, cancelAll. simpl.
    apply (foldl_preserves (λ st, promises st !! k = Some (Resolved v))); [|done].
    intros; by apply emit_done_keeps_settled.
Qed.

Lemma settled_promise_is_final_witness :
  promises (run DownloadSamples.downloads0
              [Done 0 completed; Cancel "a.mp3"; CancelAll]
              (run DownloadSamples.downloads0
                 [Download "https://example.org/a.mp3" None; WillDownload "a.mp3" 100;
                  Updated 0 interrupted 40 "aaaa"] (init ∅))) !! 0%nat
  = Some (Resolved None).
Proof.
  apply (settled_promise_is_final DownloadSamples.downloads0
           [Done 0 completed; Cancel "a.mp3"; CancelAll]).
  by vm_compute.
Defined.

Lemma foldl_on_done_tasks h s ks st :
  tasks (foldl (λ acc k, on_done h s k acc) st ks) = tasks st.
Proof.
  revert st. induction ks as [|k ks IH]; intros st; simpl; [done|].
  rewrite IH. unfold on_done. destruct (items st !! h); [|done]. by case_decide.
Qed.

(** Ending an item either does nothing, or marks the item done in place. *)
Lemma emit_done_tracking h s st :
  emit_done h s st = st
  ∨ ∃ it, items st !! h = Some it ∧ isDone it = false ∧ s ≠ progressing
          ∧ tasks (emit_done h s st) = tasks st
          ∧ items (emit_done h s st)
            = <[h := report s true (receivedBytes it) it]> (items st).
Proof.
  unfold emit_done. destruct (items st !! h) as [it|] eqn:Hit; [|by left].
  destruct (isDone it) eqn:Hd; [by left|].
  case_decide as Hs; [by left|].
  rewrite foldl_on_done_tasks, foldl_on_done_items.
  right. by exists it.
Qed.

Lemma emit_done_idempotent h s st :
  emit_done h s (emit_done h s st) = emit_done h s st.
Proof.
  destruct (emit_done_tracking h s st) as [Heq|(it & Hit & _ & _ & _ & Hins)];
    [by rewrite !Heq|].
  unfold emit_done at 1. rewrite Hins.
  rewrite list_lookup_insert_eq by (by eapply lookup_lt_Some). done.
Qed.

Lemma emit_done_filenames h s st h' :
  filename <$> items (emit_done h s st) !! h' = filename <$> items st !! h'.
Proof.
  destruct (emit_done_tracking h s st) as [Heq|(it & Hit & _ & _ & _ & ->)];
    [by rewrite Heq|].
  destruct (decide (h = h')) as [->|Hne].
  - rewrite list_lookup_insert_eq by (by eapply lookup_lt_Some). by rewrite Hit.
  - by rewrite list_lookup_insert_ne.
Qed.

Lemma emit_done_tasks h s st : tasks (emit_done h s st) = tasks st.
Proof.
  by destruct (emit_done_tracking h s st) as [Heq|(it & _ & _ & _ & Heq & _)];
    rewrite Heq.
Qed.

Lemma find_agrees {A} (f g : A → bool) (l : list A) :
  (∀ x, f x = g x) → List.find f l = List.find g l.
Proof.
  intros Hfg. induction l as [|x l IH]; simpl; [done|]. by rewrite Hfg, IH.
Qed.

(** X15: [cancel(name)] looks at the first tracked item of that name only.
    When that item is not [progressing] (or no item has the name) nothing
    happens, even if a later item of the same name is still under way; and
    cancelling twice is the same as cancelling once. *)
Theorem cancel_first_progressing_only name st :
  (∀ before h rest it,
     tasks st = before ++ h :: rest →
     (∀ h', h' ∈ before → filename <$> items st !! h' ≠ Some name) →
     items st !! h = Some it → filename it = name → state it ≠ progressing →
     cancel name st = st)
  ∧ ((∀ h, h ∈ tasks st → filename <$> items st !! h ≠ Some name) → cancel name st = st)
  ∧ cancel name (cancel name st) = cancel name st.
Proof.
  split; [|split].
  - intros before h rest it Ht Hbefore Hit Hname Hstate. unfold cancel. rewrite Ht.
    assert (List.find (λ h0, bool_decide (filename <$> items st !! h0 = Some name))
              (before ++ h :: rest) = Some h) as ->.
    { clear Ht. induction before as [|b before IH]; simpl.
      - rewrite Hit. simpl. by rewrite Hname, bool_decide_eq_true_2.
      - rewrite bool_decide_eq_false_2 by (apply Hbefore; by left).
        apply IH. intros h' Hin. apply Hbefore. by right. }
    rewrite Hit. simpl. by rewrite bool_decide_eq_false_2 by congruence.
  - intros Hnone. unfold cancel.
    destruct (List.find _ _) as [h|] eqn:Hfind; [|done].
    apply find_some in Hfind as [Hin Hp]. apply bool_decide_eq_true in Hp.
    destruct (Hnone h); [by apply list_elem_of_In|done].
  - destruct (List.find (λ h0, bool_decide (filename <$> items st !! h0 = Some name))
                (tasks st)) as [h|] eqn:Hfind.
    2:{ assert (cancel name st = st) as Hc by (unfold cancel; by rewrite Hfind).
        by rewrite !Hc. }
    destruct (decide (state <$> items st !! h = Some progressing)) as [Hprog|Hprog].
    2:{ assert (cancel name st = st) as Hc.
        { unfold cancel. rewrite Hfind. by rewrite bool_decide_eq_false_2. }
        by rewrite !Hc. }
    assert (cancel name st = emit_done h cancelled st) as Hc.
    { unfold cancel, item_cancel. rewrite Hfind. by rewrite bool_decide_eq_true_2. }
    rewrite Hc. unfold cancel, item_cancel. rewrite emit_done_tasks.
    assert (List.find (λ h0, bool_decide (filename <$> items (emit_done h cancelled st) !! h0
                                          = Some name)) (tasks st) = Some h) as ->.
    { rewrite <- Hfind. apply find_agrees. intros h0. by rewrite emit_done_filenames. }
    case_bool_decide; [apply emit_done_idempotent|done].
Qed.

Lemma cancel_first_progressing_only_witness :
  cancel "a.mp3"
    (run DownloadSamples.downloads0
       [Download "https://example.org/a.mp3" None; WillDownload "a.mp3" 100;
        Done 0 completed] (init ∅))
  = run DownloadSamples.downloads0
      [Download "https://example.org/a.mp3" None; WillDownload "a.mp3" 100;
       Done 0 completed] (init ∅).
Proof.
  refine (proj1 (cancel_first_progressing_only "a.mp3" _) [] 0%nat []
            {| filename := "a.mp3"; savePath := "/home/u/Downloads/a.mp3";
               state := completed; isDone := true; receivedBytes := 0;
               totalBytes := 100; observers := [0%nat] |} _ _ _ _ _).
  - by vm_compute.
  - intros h' Hin. by apply elem_of_nil in Hin.
  - by vm_compute.
  - reflexivity.
  - discriminate.
Defined.

(** What ending item [h] does to any item of the session. *)
Lemma emit_done_item h s st h' it :
  items st !! h' = Some it → s ≠ progressing →
  items (emit_done h s st) !! h'
  = Some (if decide (h' = h ∧ isDone it = false)
          then report s true (receivedBytes it) it else it).
Proof.
  intros Hit Hs. unfold emit_done.
  destruct (items st !! h) as [ith|] eqn:Hh.
  2:{ rewrite decide_False; [done|]. intros [-> _]. congruence. }
  destruct (isDone ith) eqn:Hd.
  { rewrite decide_False; [done|]. intros [-> Hf]. congruence. }
  rewrite decide_False by done. rewrite foldl_on_done_items. simpl.
  destruct (decide (h' = h)) as [->|Hne].
  - assert (ith = it) as -> by congruence.
    rewrite decide_True by done.
    by rewrite list_lookup_insert_eq by (by eapply lookup_lt_Some).
  - rewrite decide_False by (by intros [? _]).
    by rewrite list_lookup_insert_ne.
Qed.

Lemma cancel_each l : ∀ st h it,
  items st !! h = Some it →
  ∃ it', items (foldl (λ acc h0, item_cancel h0 acc) st l) !! h = Some it'
         ∧ filename it' = filename it
         ∧ (isDone it = true → it' = it)
         ∧ (isDone it = false →
            ((h ∉ l) ∧ it' = it) ∨ (isDone it' = true ∧ state it' = cancelled)).
Proof.
  induction l as [|a l IH]; intros st h it Hit; simpl.
  - exists it. repeat split; try done. intros _. left. split; [|done]. apply not_elem_of_nil.
  - pose proof (emit_done_item a cancelled st h it Hit) as Hstep.
    unfold item_cancel at 2.
    destruct (IH _ _ _ (Hstep ltac:(done))) as (it' & Hit' & Hname & Hdone & Hopen).
    exists it'. split; [done|].
    destruct (decide (h = a ∧ isDone it = false)) as [[-> Hf]|Hno]; simpl in *.
    + repeat split; try done.
      * intros Ht. congruence.
      * intros _. right. rewrite (Hdone eq_refl). done.
    + repeat split; try done.
      intros Hf. destruct (Hopen Hf) as [[Hnot ->]|?]; [|by right].
      left. split; [|done]. apply not_elem_of_cons. split; [|done].
      intros ->. by apply Hno.
Qed.

(** X16: after [cancelAll()] every tracked item is done: one that was done
    already is as it was, every other one is [cancelled]; and [clear()]
    does the same and leaves nothing tracked, so the dashboard is empty. *)
Theorem cancelAll_ends_every_tracked_item st :
  (∀ h it,
     h ∈ tasks st → items st !! h = Some it →
     ∃ it', items (cancelAll st) !! h = Some it'
            ∧ isDone it' = true ∧ filename it' = filename it
            ∧ (isDone it = true → it' = it)
            ∧ (isDone it = false → state it' = cancelled))
  ∧ items (clear st) = items (cancelAll st)
  ∧ tasks (clear st) = []
  ∧ dashboard (clear st) = [].
Proof.
  split; [|done].
  intros h it Hin Hit. unfold cancelAll.
  destruct (cancel_each (tasks st) st h it Hit) as (it' & Hit' & Hname & Hdone & Hopen).
  exists it'. split; [done|].
  destruct (isDone it) eqn:Hd.
  - rewrite (Hdone eq_refl). repeat split; done.
  - destruct (Hopen eq_refl) as [[Hnot _]|[? ?]]; [done|]. repeat split; done.
Qed.

Lemma cancelAll_ends_every_tracked_item_witness :
  ∃ it', items (cancelAll
                  (run DownloadSamples.downloads0
                     [Download "https://example.org/a.mp3" None; WillDownload "a.mp3" 100]
                     (init ∅))) !! 0%nat = Some it'
         ∧ isDone it' = true ∧ state it' = cancelled.
Proof.
  destruct (proj1 (cancelAll_ends_every_tracked_item
                     (run DownloadSamples.downloads0
                        [Download "https://example.org/a.mp3" None;
                         WillDownload "a.mp3" 100] (init ∅)))
              0%nat
              {| filename := "a.mp3"; savePath := "/home/u/Downloads/a.mp3";
                 state := progressing; isDone := false; receivedBytes := 0;
                 totalBytes := 100; observers := [0%nat] |})
    as (it' & Hit' & Hd & _ & _ & Hc).
  - vm_compute. apply list_elem_of_here.
  - by vm_compute.
  - exists it'. split; [exact Hit'|]. split; [exact Hd|]. by apply Hc.
Defined.

(** The listeners of a session working on a newly announced item. *)
Lemma listeners_on_new_item downloads h ls : ∀ st pre it,
  items st = pre ++ [it] → length pre = h →
  let st' := foldl (λ acc l, on_will_download downloads h l acc) st ls in
  tasks st' = tasks st ++ replicate (length ls) h
  ∧ promises st' = promises st ∧ session st' = session st ∧ fs st' = fs st
  ∧ ∃ it', items st' = pre ++ [it']
           ∧ filename it' = filename it
           ∧ observers it' = observers it ++ (l_promise <$> ls)
           ∧ savePath it' = match last ls with
                            | Some l => placed downloads (l_savePath l) (filename it)
                            | None => savePath it
                            end
           ∧ (state it', isDone it', receivedBytes it', totalBytes it')
             = (state it, isDone it, receivedBytes it, totalBytes it).
Proof.
  induction ls as [|l ls IH]; intros st pre it Hitems Hlen; simpl.
  - rewrite ?app_nil_r. repeat split; try done. exists it. by rewrite ?app_nil_r.
  - set (it1 := observe (l_promise l)
                  (set_savePath (placed downloads (l_savePath l) (filename it)) it)).
    assert (items (on_will_download downloads h l st) = pre ++ [it1]) as Hitems1.
    { unfold on_will_download. simpl. rewrite Hitems.
      replace h with (length pre + 0)%nat by lia. rewrite alter_app_r. simpl.
      f_equal. f_equal. unfold it1, placed.
      destruct (l_savePath l) as [p|]; [destruct (truthy p)|]; done. }
    destruct (IH _ _ _ Hitems1 Hlen) as (Ht & Hp & Hs & Hf & it' & Hi & Hn & Ho & Hsp & Hrest).
    split; [|split; [done|split; [done|split; [done|]]]].
    + rewrite Ht. simpl. by rewrite <- app_assoc.
    + exists it'. split; [done|]. split; [done|]. split.
      * rewrite Ho. simpl. by rewrite <- app_assoc.
      * split; [|done]. rewrite Hsp, last_cons. simpl. by destruct (last ls).
Qed.

(** X17: when the session announces a download, every listener registered
    so far handles it, whichever call it came from: the item is added to
    [tasks] once per call of [download] made so far, its handlers hold the
    promises of all those calls, and it is saved where the most recent call
    asked; nothing is settled or written yet. *)
Theorem will_download_reaches_every_listener downloads name total st :
  let st' := emit_will_download downloads name total st in
  tasks st' = tasks st ++ replicate (length (session st)) (length (items st))
  ∧ promises st' = promises st ∧ fs st' = fs st
  ∧ ∃ it, items st' = items st ++ [it]
          ∧ filename it = name
          ∧ observers it = l_promise <$> session st
          ∧ savePath it = match last (session st) with
                          | Some l => placed downloads (l_savePath l) name
                          | None => ""
                          end
          ∧ state it = progressing ∧ isDone it = false.
Proof.
  unfold emit_will_download.
  destruct (listeners_on_new_item downloads (length (items st)) (session st)
              (with_items (items st ++ [{| filename := name; savePath := "";
                                           state := progressing; isDone := false;
                                           receivedBytes := 0; totalBytes := total;
                                           observers := [] |}]) st)
              (items st) _ eq_refl eq_refl)
    as (Ht & Hp & _ & Hf & it' & Hi & Hn & Ho & Hsp & Hrest).
  simpl in *. split; [done|]. split; [done|]. split; [done|].
  exists it'. injection Hrest as Hstate Hdone _ _. repeat split; done.
Qed.

End DownloadMore.
